(** * Balance-diff trade-decision engine of the Solana copy-trading bot

    A shallow embedding of the tracker (the module that defines
    [getWalletTokenBalances], [compareBalances] and [startTracker]), of the
    metrics module ([updatePerformanceMetrics], [resetMetrics]) and of the
    older polling tracker [src/tracker.ts].

    Conventions.
    - A JavaScript [number] holding a balance, a percentage or an amount is a
      rational [Q]: IEEE rounding, infinities and NaN are outside the model,
      except that [parseFloat] may answer NaN, written [None].
    - A JavaScript [Map<string, number>] is a [gmap string Q].  The order in
      which [Array.from(set)] lists the keys is the order of [map_to_list];
      no statement below depends on it.
    - An [async] callback is a [Task]: the code up to the first [await] runs
      at once, the rest is a continuation that the event loop resumes when the
      awaited promise settles.  The two [Date.now()] readings around a swap
      are folded into the elapsed time handed to the continuation. *)

From Stdlib Require Import QArith Qfield Lqa ZArith Lia Ascii String.
From Stdlib Require Import Qround.
From stdpp Require Import gmap strings list fin_maps.

Open Scope Q_scope.

(** ** JavaScript numbers as rationals *)

Module Js.

(** [a > b] *)
Definition gt (a b : Q) : bool := negb (Qle_bool a b).

(** [a < b] *)
Definition lt (a b : Q) : bool := gt b a.

(** [a <= b] *)
Definition le (a b : Q) : bool := Qle_bool a b.

(** [a === b] on numbers *)
Definition eq (a b : Q) : bool := Qeq_bool a b.

(** truthiness of a number: every number but [0] (and NaN) is truthy *)
Definition truthy (a : Q) : bool := negb (Qeq_bool a 0).

(** [m.get(k) || 0], also [m.get(k) ?? 0]: stored values are numbers, and
    [0 || 0] is [0] *)
Definition getOr0 (m : gmap string Q) (k : string) : Q := default 0 (m !! k).

(** [m.has(k)] *)
Definition has {V} (m : gmap string V) (k : string) : bool :=
  bool_decide (is_Some (m !! k)).

(** [Array.from(new Set(m.keys()))] *)
Definition keys {V} (m : gmap string V) : list string := (map_to_list m).*1.

(** [parseFloat] on the unsigned decimal literals in which the RPC node
    prints [uiAmountString]: the longest prefix of digits with at most one
    point; NaN ([None]) when no digit was read. *)
Definition digit (c : ascii) : option Z :=
  let n := nat_of_ascii c in
  if (48 <=? n)%nat && (n <=? 57)%nat then Some (Z.of_nat (n - 48)) else None.

Fixpoint parseDigits (acc : Z) (scale : positive) (point seen : bool)
    (str : string) : option Q :=
  let stop := if seen then Some (acc # scale) else None in
  match str with
  | EmptyString => stop
  | String c rest =>
      match digit c with
      | Some d =>
          parseDigits (acc * 10 + d) (if point then scale * 10 else scale)
            point true rest
      | None =>
          if Ascii.eqb c "." && negb point
          then parseDigits acc scale true seen rest
          else stop
      end
  end.

Definition parseDecimal (str : string) : option Q :=
  parseDigits 0 1 false false str.

(** [Math.floor(x)] *)
Definition floor (x : Q) : Z := Qfloor x.

(** [Math.round(x)]: the nearest integer, a half going up. *)
Definition round (x : Q) : Z := Qfloor (x + (1 # 2)).

End Js.

(** ** The metrics module *)

Module Metrics.

Record PerformanceMetrics := {
  latencies : list Z;
  successfulTrades : nat;
  totalTrades : nat;
  apiCallCount : nat
}.

(** [updatePerformanceMetrics(tradeCount, latency, success, currentMetrics)] *)
Definition updatePerformanceMetrics (tradeCount : nat) (latency : Z)
    (success : bool) (currentMetrics : PerformanceMetrics) : PerformanceMetrics :=
  {| latencies := latencies currentMetrics ++ [latency];
     successfulTrades :=
       (successfulTrades currentMetrics + (if success then 1 else 0))%nat;
     totalTrades := (totalTrades currentMetrics + 1)%nat;
     apiCallCount := apiCallCount currentMetrics |}.

(** [resetMetrics()] *)
Definition resetMetrics : PerformanceMetrics :=
  {| latencies := []; successfulTrades := 0; totalTrades := 0; apiCallCount := 0 |}.

(** [calculateAverageTradeLatency(latencies)] *)
Definition calculateAverageTradeLatency (latencies : list Z) : Z :=
  if bool_decide (length latencies = 0%nat) then 0%Z
  else Js.round (inject_Z (foldl Z.add 0%Z latencies)
                 / inject_Z (Z.of_nat (length latencies))).

(** [calculateApiCallsPerTrade(totalTrades, apiCallCount)] *)
Definition calculateApiCallsPerTrade (totalTrades apiCallCount : nat) : Z :=
  if (0 <? totalTrades)%nat
  then Js.round (inject_Z (Z.of_nat apiCallCount) / inject_Z (Z.of_nat totalTrades))
  else 0%Z.

(** [calculateSuccessRate(totalTrades, successfulTrades)] *)
Definition calculateSuccessRate (totalTrades successfulTrades : nat) : Z :=
  if (0 <? totalTrades)%nat
  then Js.round (inject_Z (Z.of_nat successfulTrades)
                 / inject_Z (Z.of_nat totalTrades) * 100)
  else 0%Z.

(** The numbers that [logPerformanceMetrics(tradeCount, metrics)] prints, in
    the order of the line. *)
Record Report := {
  reportTrades : nat;
  reportCalls : nat;
  reportAvgTradeLatency : Z;
  reportCallsPerTrade : Z;
  reportSuccessRate : Z
}.

Definition logPerformanceMetrics (tradeCount : nat) (metrics : PerformanceMetrics)
    : Report :=
  {| reportTrades := tradeCount;
     reportCalls := apiCallCount metrics;
     reportAvgTradeLatency := calculateAverageTradeLatency (latencies metrics);
     reportCallsPerTrade :=
       calculateApiCallsPerTrade (totalTrades metrics) (apiCallCount metrics);
     reportSuccessRate :=
       calculateSuccessRate (totalTrades metrics) (successfulTrades metrics) |}.

End Metrics.

(** ** The tracker: data *)

Module Tracker.

(** [SwapResult] of the trader module *)
Record SwapResult := {
  success : bool;
  outAmount : Q;
  signature : option string;
  dex : option string
}.

(** The two entry points of the swap executor, with their arguments. *)
Inductive SwapCall :=
| executeSwapBuy (inputMint outputMint : string) (amount : Q)
| executeSwapSell (inputMint outputMint : string) (percentageToSell : Q).

Inductive NotificationType := BUY | SELL | INCREASE_ALERT | DECREASE_ALERT.

(** [NotificationDetails] of the notification module.  Numbers that the code
    formats with [toFixed] are kept as numbers. *)
Inductive NotificationDetails :=
| Tokens (amount : Q)
| WalletIncrease (wallet increasePercent : Q)
| SolReturnedDecrease (solReturned decreasePercent : Q)
| SolReturnedBalance (solReturned updatedBalance : Q).

Inductive Notification :=
| sendWalletNotification (type : NotificationType) (walletAddress token : string)
    (details : NotificationDetails) (latency : Z) (tradeLamports : option Q)
    (signature dex : option string)
| sendBotNotification (type : NotificationType) (walletAddress token : string)
    (details : NotificationDetails) (latency : Z) (tradeLamports : option Q)
    (signature dex : option string).

(** The [console.log] lines of [compareBalances] that name the branch taken
    and the outcome of a swap. *)
Inductive LogLine :=
| BuyDetected (token : string) (amount : Q)
| BalanceIncreased (token : string) (increase : Q)
| BalanceDecreased (token : string) (decreaseAmount decreasePercent : Q)
| FullSell (token : string) (botBalance : Q)
| BuyExecuted (token : string)
| BuyFailed (token : string)
| SellExecuted (token : string)
| SellFailed (token : string)
| FullSellExecuted (token : string)
| FullSellFailed (token : string)
| BalanceFetchError (walletAddress : string).

(** Startup constants of the module. *)
Record Config := {
  TRADE_AMOUNT_LAMPORTS : Q;
  botWallet : string;
  TRACKED_WALLET : string
}.

Definition solMint : string := "So11111111111111111111111111111111111111112".

(** [MIN_CHECK_INTERVAL] *)
Definition MIN_CHECK_INTERVAL : Z := 50.

(** The module-level variables. *)
Record TrackerState := {
  previousBalances : gmap string Q;
  botBalances : gmap string Q;
  processedSignatures : gset string;
  apiCallCount : nat;
  tradeCount : nat;
  lastBalanceCheck : Z;
  metrics : Metrics.PerformanceMetrics;
  trackedWalletSignatures : gmap string string;
  console : list LogLine
}.

Definition initialState : TrackerState :=
  {| previousBalances := ∅; botBalances := ∅; processedSignatures := ∅;
     apiCallCount := 0; tradeCount := 0; lastBalanceCheck := 0;
     metrics := Metrics.resetMetrics; trackedWalletSignatures := ∅;
     console := [] |}.

Definition with_previousBalances (m : gmap string Q) (s : TrackerState) :=
  {| previousBalances := m; botBalances := botBalances s;
     processedSignatures := processedSignatures s;
     apiCallCount := apiCallCount s; tradeCount := tradeCount s;
     lastBalanceCheck := lastBalanceCheck s; metrics := metrics s;
     trackedWalletSignatures := trackedWalletSignatures s;
     console := console s |}.

Definition with_botBalances (m : gmap string Q) (s : TrackerState) :=
  {| previousBalances := previousBalances s; botBalances := m;
     processedSignatures := processedSignatures s;
     apiCallCount := apiCallCount s; tradeCount := tradeCount s;
     lastBalanceCheck := lastBalanceCheck s; metrics := metrics s;
     trackedWalletSignatures := trackedWalletSignatures s;
     console := console s |}.

Definition with_processedSignatures (g : gset string) (s : TrackerState) :=
  {| previousBalances := previousBalances s; botBalances := botBalances s;
     processedSignatures := g;
     apiCallCount := apiCallCount s; tradeCount := tradeCount s;
     lastBalanceCheck := lastBalanceCheck s; metrics := metrics s;
     trackedWalletSignatures := trackedWalletSignatures s;
     console := console s |}.

Definition with_lastBalanceCheck (t : Z) (s : TrackerState) :=
  {| previousBalances := previousBalances s; botBalances := botBalances s;
     processedSignatures := processedSignatures s;
     apiCallCount := apiCallCount s; tradeCount := tradeCount s;
     lastBalanceCheck := t; metrics := metrics s;
     trackedWalletSignatures := trackedWalletSignatures s;
     console := console s |}.

Definition with_trackedWalletSignatures (m : gmap string string) (s : TrackerState) :=
  {| previousBalances := previousBalances s; botBalances := botBalances s;
     processedSignatures := processedSignatures s;
     apiCallCount := apiCallCount s; tradeCount := tradeCount s;
     lastBalanceCheck := lastBalanceCheck s; metrics := metrics s;
     trackedWalletSignatures := m;
     console := console s |}.

Definition with_metrics (m : Metrics.PerformanceMetrics) (s : TrackerState) :=
  {| previousBalances := previousBalances s; botBalances := botBalances s;
     processedSignatures := processedSignatures s;
     apiCallCount := apiCallCount s; tradeCount := tradeCount s;
     lastBalanceCheck := lastBalanceCheck s; metrics := m;
     trackedWalletSignatures := trackedWalletSignatures s;
     console := console s |}.

(** [apiCallCount++] *)
Definition incr_apiCallCount (s : TrackerState) :=
  {| previousBalances := previousBalances s; botBalances := botBalances s;
     processedSignatures := processedSignatures s;
     apiCallCount := S (apiCallCount s); tradeCount := tradeCount s;
     lastBalanceCheck := lastBalanceCheck s; metrics := metrics s;
     trackedWalletSignatures := trackedWalletSignatures s;
     console := console s |}.

(** [tradeCount++] *)
Definition incr_tradeCount (s : TrackerState) :=
  {| previousBalances := previousBalances s; botBalances := botBalances s;
     processedSignatures := processedSignatures s;
     apiCallCount := apiCallCount s; tradeCount := S (tradeCount s);
     lastBalanceCheck := lastBalanceCheck s; metrics := metrics s;
     trackedWalletSignatures := trackedWalletSignatures s;
     console := console s |}.

(** [console.log(...)] *)
Definition log (l : LogLine) (s : TrackerState) :=
  {| previousBalances := previousBalances s; botBalances := botBalances s;
     processedSignatures := processedSignatures s;
     apiCallCount := apiCallCount s; tradeCount := tradeCount s;
     lastBalanceCheck := lastBalanceCheck s; metrics := metrics s;
     trackedWalletSignatures := trackedWalletSignatures s;
     console := console s ++ [l] |}.

(** [metrics = updatePerformanceMetrics(tradeCount, latency, success, metrics)] *)
Definition recordMetrics (latency : Z) (success : bool) (s : TrackerState) :=
  with_metrics
    (Metrics.updatePerformanceMetrics (tradeCount s) latency success (metrics s)) s.

(** ** The snapshot fetch *)

(** One element of [tokenAccounts.value], as far as the loop reads it.  An
    element that lacks the path [account.data.parsed.info] makes the property
    access throw. *)
Inductive TokenAccount :=
| Parsed (mint uiAmountString : string)
| Unparsed.

(** Outcome of the awaited [connection.getParsedTokenAccountsByOwner]; the
    rejection also stands for [new PublicKey(walletAddress)] throwing. *)
Inductive RpcResponse :=
| Resolved (value : list TokenAccount)
| Rejected (error : string).

(** Result of a block that may throw. *)
Inductive Completion (A : Type) :=
| Normal (a : A)
| Throw (error : string).
Arguments Normal {A} a.
Arguments Throw {A} error.

Section Fetch.

(** The host's [parseFloat]; [None] is NaN. *)
Variable parseFloat : string -> option Q.

(** The body of the [for] loop for one account. *)
Definition addAccount (tokenBalances : gmap string Q) (account : TokenAccount)
    : Completion (gmap string Q) :=
  match account with
  | Unparsed => Throw "TypeError"
  | Parsed mint uiAmountString =>
      match parseFloat uiAmountString with
      | Some balance =>
          if Js.gt balance 0 then Normal (<[mint := balance]> tokenBalances)
          else Normal tokenBalances
      | None => Normal tokenBalances
      end
  end.

Fixpoint addAccounts (tokenBalances : gmap string Q) (accounts : list TokenAccount)
    : Completion (gmap string Q) :=
  match accounts with
  | [] => Normal tokenBalances
  | account :: rest =>
      match addAccount tokenBalances account with
      | Normal tokenBalances' => addAccounts tokenBalances' rest
      | Throw e => Throw e
      end
  end.

(** The [try] block of [getWalletTokenBalances]. *)
Definition tryFetch (response : RpcResponse) : Completion (gmap string Q) :=
  match response with
  | Rejected e => Throw e
  | Resolved value => addAccounts ∅ value
  end.

(** [getWalletTokenBalances(walletAddress)], given how the RPC call settles. *)
Definition getWalletTokenBalances (walletAddress : string) (response : RpcResponse)
    (s : TrackerState) : TrackerState * gmap string Q :=
  let s := incr_apiCallCount s in
  match tryFetch response with
  | Normal tokenBalances => (s, tokenBalances)
  | Throw _ => (log (BalanceFetchError walletAddress) s, ∅)
  end.

End Fetch.

(** The ways the [try] block fails: the RPC promise rejects (network error,
    bad address), or the answer does not have the expected shape. *)
Definition isUnparsed (account : TokenAccount) : bool :=
  match account with Unparsed => true | Parsed _ _ => false end.

Definition fetchFails (response : RpcResponse) : bool :=
  match response with
  | Rejected _ => true
  | Resolved value => existsb isUnparsed value
  end.

(** ** The comparison pass *)

(** A suspended [async] callback.  [AwaitSwap call k] waits for the swap
    executor; [k] receives the result, the milliseconds elapsed and the
    module state as it is on resumption.  [AwaitNotify n k] waits for a
    notification, which resolves without a value. *)
#[warnings="-register-all"] Inductive Task :=
| Done
| AwaitSwap (call : SwapCall)
    (k : SwapResult -> Z -> TrackerState -> TrackerState * Task)
| AwaitNotify (n : Notification) (k : TrackerState -> TrackerState * Task).

Inductive Branch := InitialBuy | IncreaseInStake | DecreaseInStake.

(** The conditions of the [if] / [else if] chain of the first callback, in
    source order. *)
Definition tradeBranch (s : TrackerState) (oldBalance newBalance : Q)
    (token : string) : option Branch :=
  if Js.gt newBalance oldBalance
     && negb (Js.has (botBalances s) token)
     && negb (Js.has (previousBalances s) token)
  then Some InitialBuy
  else if Js.gt newBalance oldBalance then Some IncreaseInStake
  else if Js.lt newBalance oldBalance && Js.gt newBalance 0
  then Some DecreaseInStake
  else None.

(** The condition of the second callback. *)
Definition fullSellBranch (s : TrackerState) (newBalances : gmap string Q)
    (token : string) : bool :=
  let newBalance := Js.getOr0 newBalances token in
  let botBalance := Js.getOr0 (botBalances s) token in
  (negb (Js.has newBalances token) || Js.le newBalance (1 # 1000))
  && Js.gt botBalance 0.

Definition Jupiter : option string := Some "Jupiter Aggregator"%string.

Section Pass.

Variable cfg : Config.
Variable walletAddress : string.
Variables oldBalances newBalances : gmap string Q.

(** The callback mapped over [newTokens]. *)
Definition tradeHandler (token : string) (s : TrackerState) : TrackerState * Task :=
  let newBalance := Js.getOr0 newBalances token in
  let oldBalance := Js.getOr0 oldBalances token in
  match tradeBranch s oldBalance newBalance token with
  | Some InitialBuy =>
      let s := log (BuyDetected token newBalance) s in
      let s := incr_tradeCount s in
      (s, AwaitSwap (executeSwapBuy solMint token (TRADE_AMOUNT_LAMPORTS cfg))
        (fun result latency s =>
           let success' := success result in
           if success result && Js.truthy (outAmount result) then
             let s := with_botBalances
                        (<[token := outAmount result]> (botBalances s)) s in
             let s := log (BuyExecuted token) s in
             let tokensBought := outAmount result / 1000000 in
             let walletTokensBought := newBalance - oldBalance in
             (s, AwaitNotify
               (sendBotNotification BUY (botWallet cfg) token
                  (Tokens tokensBought) latency
                  (Some (TRADE_AMOUNT_LAMPORTS cfg))
                  (signature result) (dex result))
               (fun s =>
                  (s, AwaitNotify
                    (sendWalletNotification BUY walletAddress token
                       (Tokens walletTokensBought) latency
                       (Some (TRADE_AMOUNT_LAMPORTS cfg))
                       (trackedWalletSignatures s !! token) Jupiter)
                    (fun s => (recordMetrics latency success' s, Done)))))
           else (log (BuyFailed token) s, Done)))
  | Some IncreaseInStake =>
      let s := log (BalanceIncreased token (newBalance - oldBalance)) s in
      let previousBalance := Js.getOr0 (previousBalances s) token in
      let accumulatedBalance :=
        Js.getOr0 (previousBalances s) token + (newBalance - oldBalance) in
      let s := with_previousBalances
                 (<[token := accumulatedBalance]> (previousBalances s)) s in
      let increasePercentage :=
        if Js.gt previousBalance 0
        then ((accumulatedBalance - previousBalance) / previousBalance) * 100
        else if Js.gt accumulatedBalance 0 then 100 else 0 in
      (s, AwaitNotify
        (sendWalletNotification INCREASE_ALERT walletAddress token
           (WalletIncrease accumulatedBalance increasePercentage) 0 None
           (trackedWalletSignatures s !! token) Jupiter)
        (fun s => (s, Done)))
  | Some DecreaseInStake =>
      let decreaseAmount := oldBalance - newBalance in
      let decreasePercent := (decreaseAmount / oldBalance) * 100 in
      let botBalance := Js.getOr0 (botBalances s) token in
      let s := log (BalanceDecreased token decreaseAmount decreasePercent) s in
      if Js.gt botBalance 0 then
        let s := incr_tradeCount s in
        (s, AwaitSwap (executeSwapSell token solMint decreasePercent)
          (fun result latency s =>
             let success' := success result in
             if success result then
               let solReturned := outAmount result / 1000000000 in
               let newBotTokenBalance :=
                 botBalance - botBalance * (decreasePercent / 100) in
               let s := with_botBalances
                          (<[token := newBotTokenBalance]> (botBalances s)) s in
               let s := log (SellExecuted token) s in
               (s, AwaitNotify
                 (sendBotNotification DECREASE_ALERT (botWallet cfg) token
                    (SolReturnedDecrease solReturned decreasePercent) latency
                    None (signature result) (dex result))
                 (fun s =>
                    let s := recordMetrics latency success' s in
                    (s, AwaitNotify
                      (sendWalletNotification DECREASE_ALERT walletAddress token
                         (SolReturnedDecrease solReturned decreasePercent)
                         latency None
                         (trackedWalletSignatures s !! token) Jupiter)
                      (fun s => (s, Done)))))
             else
               let s := log (SellFailed token) s in
               let s := recordMetrics latency false s in
               (s, AwaitNotify
                 (sendWalletNotification DECREASE_ALERT walletAddress token
                    (SolReturnedDecrease 0 decreasePercent) latency None
                    (trackedWalletSignatures s !! token) Jupiter)
                 (fun s => (s, Done)))))
      else (s, Done)
  | None => (s, Done)
  end.

(** The callback mapped over [oldTokens]. *)
Definition sellHandler (token : string) (s : TrackerState) : TrackerState * Task :=
  let botBalance := Js.getOr0 (botBalances s) token in
  if fullSellBranch s newBalances token then
    let s := log (FullSell token botBalance) s in
    let s := incr_tradeCount s in
    (s, AwaitSwap (executeSwapSell token solMint 100)
      (fun result latency s =>
         if success result then
           let s := with_botBalances (<[token := 0]> (botBalances s)) s in
           let s := with_previousBalances (delete token (previousBalances s)) s in
           let solReturned := outAmount result / 1000000000 in
           let s := log (FullSellExecuted token) s in
           (s, AwaitNotify
             (sendWalletNotification SELL (TRACKED_WALLET cfg) token
                (SolReturnedBalance solReturned 0) latency None
                (trackedWalletSignatures s !! token) Jupiter)
             (fun s =>
                (s, AwaitNotify
                  (sendBotNotification SELL (botWallet cfg) token
                     (SolReturnedBalance (outAmount result / 1000000) 0)
                     latency None (signature result) (dex result))
                  (fun s => (s, Done)))))
         else
           let s := log (FullSellFailed token) s in
           (recordMetrics latency false s, Done)))
  else (s, Done).

(** [Array.from(tokens).map(async (token) => ...)]: every callback runs up to
    its first [await], in order, and leaves a promise. *)
Fixpoint spawn (handler : string -> TrackerState -> TrackerState * Task)
    (tokens : list string) (s : TrackerState) : TrackerState * list Task :=
  match tokens with
  | [] => (s, [])
  | token :: rest =>
      let '(s, t) := handler token s in
      let '(s, ts) := spawn handler rest s in
      (s, t :: ts)
  end.

(** [compareBalances] up to [await Promise.all(...)]. *)
Definition compareBalances_spawn (s : TrackerState) : TrackerState * list Task :=
  let s := incr_apiCallCount s in
  let oldTokens := Js.keys oldBalances in
  let newTokens := Js.keys newBalances in
  let '(s, tradePromises) := spawn tradeHandler newTokens s in
  let '(s, sellPromises) := spawn sellHandler oldTokens s in
  (s, tradePromises ++ sellPromises).

(** [compareBalances] after [await Promise.all(...)]. *)
Definition compareBalances_finish (s : TrackerState) : TrackerState :=
  with_previousBalances newBalances s.

End Pass.

(** ** The event loop *)

(** A resumption as the outside world sees it. *)
Inductive Event :=
| Swapped (call : SwapCall) (result : SwapResult) (latency : Z)
| Notified (n : Notification).

(** One turn of the event loop over the promises of a pass: any suspended
    callback may be resumed, with whatever outcome the executor reports. *)
Inductive step : TrackerState * list Task -> Event -> TrackerState * list Task -> Prop :=
| step_swap s pool i call k result latency s' t' :
    pool !! i = Some (AwaitSwap call k) ->
    k result latency s = (s', t') ->
    step (s, pool) (Swapped call result latency) (s', <[i := t']> pool)
| step_notify s pool i n k s' t' :
    pool !! i = Some (AwaitNotify n k) ->
    k s = (s', t') ->
    step (s, pool) (Notified n) (s', <[i := t']> pool).

Inductive steps : TrackerState * list Task -> list Event -> TrackerState * list Task -> Prop :=
| steps_nil c : steps c [] c
| steps_cons c e c' es c'' : step c e c' -> steps c' es c'' -> steps c (e :: es) c''.

(** Resuming a callback by hand: the swap outcome is used only by a callback
    that waits for a swap. *)
Definition resume (t : Task) (result : SwapResult) (latency : Z)
    (s : TrackerState) : TrackerState * Task :=
  match t with
  | Done => (s, Done)
  | AwaitSwap _ k => k result latency s
  | AwaitNotify _ k => k s
  end.

(** The swap calls in flight. *)
Definition inFlight (pool : list Task) : list SwapCall :=
  omap (fun t => match t with AwaitSwap call _ => Some call | _ => None end) pool.

(** The notifications in flight. *)
Definition notifying (pool : list Task) : list Notification :=
  omap (fun t => match t with AwaitNotify n _ => Some n | _ => None end) pool.

(** The swap executor as an oracle: the outcome and the milliseconds taken. *)
Definition SwapExecutor := SwapCall -> SwapResult * Z.

(** Runs one callback to its end, at most [fuel] resumptions. *)
Fixpoint settle (exec : SwapExecutor) (fuel : nat) (t : Task) (s : TrackerState)
    : option (TrackerState * list Event) :=
  match t with
  | Done => Some (s, [])
  | AwaitSwap call k =>
      match fuel with
      | O => None
      | S fuel =>
          let '(result, latency) := exec call in
          let '(s, t) := k result latency s in
          match settle exec fuel t s with
          | Some (s, es) => Some (s, Swapped call result latency :: es)
          | None => None
          end
      end
  | AwaitNotify n k =>
      match fuel with
      | O => None
      | S fuel =>
          let '(s, t) := k s in
          match settle exec fuel t s with
          | Some (s, es) => Some (s, Notified n :: es)
          | None => None
          end
      end
  end.

(** One schedule of [Promise.all]: the callbacks settle one after the other. *)
Fixpoint settleAll (exec : SwapExecutor) (fuel : nat) (pool : list Task)
    (s : TrackerState) : option (TrackerState * list Event) :=
  match pool with
  | [] => Some (s, [])
  | t :: pool =>
      match settle exec fuel t s with
      | Some (s, es) =>
          match settleAll exec fuel pool s with
          | Some (s, es') => Some (s, es ++ es')
          | None => None
          end
      | None => None
      end
  end.

(** [compareBalances(walletAddress, oldBalances, newBalances)] under that
    schedule. *)
Definition compareBalances (cfg : Config) (exec : SwapExecutor) (fuel : nat)
    (walletAddress : string) (oldBalances newBalances : gmap string Q)
    (s : TrackerState) : option (TrackerState * list Event) :=
  let '(s, pool) := compareBalances_spawn cfg walletAddress oldBalances newBalances s in
  match settleAll exec fuel pool s with
  | Some (s, es) => Some (compareBalances_finish newBalances s, es)
  | None => None
  end.

(** Every callback of the pass awaits at most three times. *)
Definition passFuel : nat := 3.

(** The lines that the synchronous part of a pass adds to the console: one
    line per branch taken, in the order of the callbacks. *)
Definition passLog (cfg : Config) (walletAddress : string)
    (oldBalances newBalances : gmap string Q) (s : TrackerState) : list LogLine :=
  drop (length (console s))
    (console (compareBalances_spawn cfg walletAddress oldBalances newBalances s).1).

(** ** Shapes of callbacks *)

(** [awaitsWithin n t]: [t] is over after at most [n] resumptions. *)
Inductive awaitsWithin : nat -> Task -> Prop :=
| within_done n : awaitsWithin n Done
| within_swap n call k :
    (forall result latency s, awaitsWithin n (k result latency s).2) ->
    awaitsWithin (S n) (AwaitSwap call k)
| within_notify n m k :
    (forall s, awaitsWithin n (k s).2) ->
    awaitsWithin (S n) (AwaitNotify m k).

(** [swapFree t]: [t] never waits for the swap executor again. *)
Inductive swapFree : Task -> Prop :=
| swapFree_done : swapFree Done
| swapFree_notify m k : (forall s, swapFree (k s).2) -> swapFree (AwaitNotify m k).

(** [oneSwap t]: the only swap [t] may wait for is the one it waits for now. *)
Inductive oneSwap : Task -> Prop :=
| oneSwap_free t : swapFree t -> oneSwap t
| oneSwap_now call k :
    (forall result latency s, swapFree (k result latency s).2) ->
    oneSwap (AwaitSwap call k).

(** [keeps P t]: no resumption of [t] breaks the state property [P]. *)
Inductive keeps (P : TrackerState -> Prop) : Task -> Prop :=
| keeps_done : keeps P Done
| keeps_swap call k :
    (forall result latency s, P s -> P (k result latency s).1) ->
    (forall result latency s, keeps P (k result latency s).2) ->
    keeps P (AwaitSwap call k)
| keeps_notify m k :
    (forall s, P s -> P (k s).1) ->
    (forall s, keeps P (k s).2) ->
    keeps P (AwaitNotify m k).

(** The metrics never count more successes than trades. *)
Definition metricsConsistent (s : TrackerState) : Prop :=
  (Metrics.successfulTrades (metrics s) <= Metrics.totalTrades (metrics s))%nat.

(** What the callback of a token reads from the module state. *)
Definition sameFor (token : string) (s s' : TrackerState) : Prop :=
  botBalances s !! token = botBalances s' !! token
  /\ previousBalances s !! token = previousBalances s' !! token
  /\ trackedWalletSignatures s !! token = trackedWalletSignatures s' !! token.

(** What the branch taken for a token depends on. *)
Definition sameLedger (s s' : TrackerState) : Prop :=
  botBalances s = botBalances s'
  /\ dom (previousBalances s) = dom (previousBalances s').

(** ** The log subscription *)

(** The argument of the [onLogs] callback. *)
Record Logs := { logs_signature : string; logs_err : bool }.

(** The [for] loop of the callback that remembers the signature. *)
Definition recordSignature (logs : Logs) (newBalances : gmap string Q)
    (s : TrackerState) (entry : string * Q) : TrackerState :=
  let '(token, newBal) := entry in
  let oldBal := Js.getOr0 (previousBalances s) token in
  let remember :=
    with_trackedWalletSignatures
      (<[token := logs_signature logs]> (trackedWalletSignatures s)) s in
  if Js.gt newBal oldBal then remember
  else if Js.lt newBal oldBal && Js.gt newBal 0 then remember
  else if negb (Js.has newBalances token) || Js.le newBal (1 # 1000) then remember
  else s.

(** The callback up to [await getWalletTokenBalances]: [true] when the fetch
    is issued. *)
Definition onLogs_enter (logs : Logs) (now : Z) (s : TrackerState)
    : TrackerState * bool :=
  let s := incr_apiCallCount s in
  if bool_decide (logs_signature logs ∈ processedSignatures s) then (s, false)
  else
    let s := with_processedSignatures
               ({[ logs_signature logs ]} ∪ processedSignatures s) s in
    if logs_err logs then (s, false)
    else (s, bool_decide (MIN_CHECK_INTERVAL <= now - lastBalanceCheck s)%Z).

(** The callback from the fetched balances on.  [compareBalances] is called
    without [await]: its promises are left to the event loop. *)
Definition onLogs_fetched (cfg : Config) (logs : Logs) (now : Z)
    (newBalances : gmap string Q) (s : TrackerState) : TrackerState * list Task :=
  let s := incr_apiCallCount s in
  let s := foldl (recordSignature logs newBalances) s (map_to_list newBalances) in
  let '(s, pool) :=
    compareBalances_spawn cfg (TRACKED_WALLET cfg) (previousBalances s) newBalances s in
  let s := with_previousBalances newBalances s in
  let s := with_lastBalanceCheck now s in
  (s, pool).

(** A whole notification handled with nothing else interleaved. *)
Definition onLogs (cfg : Config) (parseFloat : string -> option Q)
    (exec : SwapExecutor) (logs : Logs) (now : Z) (response : RpcResponse)
    (s : TrackerState) : option (TrackerState * list Event) :=
  let '(s, fetch) := onLogs_enter logs now s in
  if fetch then
    let '(s, newBalances) :=
      getWalletTokenBalances parseFloat (TRACKED_WALLET cfg) response s in
    let '(s, pool) := onLogs_fetched cfg logs now newBalances s in
    match settleAll exec passFuel pool s with
    | Some (s, es) => Some (compareBalances_finish newBalances s, es)
    | None => None
    end
  else Some (s, []).

(** Started from two states with the same ledger and the same tokens seen
    before, a callback logs the same line, and the two states it leaves still
    agree. *)
Definition logsAlike (handler : string -> TrackerState -> TrackerState * Task) : Prop :=
  forall token s s', sameLedger s s' ->
    sameLedger (handler token s).1 (handler token s').1
    /\ exists lines,
         console (handler token s).1 = console s ++ lines
         /\ console (handler token s').1 = console s' ++ lines.

(** ** Sample data *)

Definition TKN : string := "TKN".

(** [TRADE_AMOUNT_SOL] at its default, 0.001 SOL. *)
Definition sampleConfig : Config :=
  {| TRADE_AMOUNT_LAMPORTS := 1000000; botWallet := "BOT"; TRACKED_WALLET := "WALLET" |}.

Definition filled : SwapResult :=
  {| success := true; outAmount := 7000000;
     signature := Some "5sig"%string; dex := Some "Raydium"%string |}.

(** What [executeSwap] returns when no quote is found. *)
Definition unfilled : SwapResult :=
  {| success := false; outAmount := 0; signature := None; dex := None |}.

Definition succeeds : SwapExecutor := fun _ => (filled, 12%Z).

Definition fails : SwapExecutor := fun _ => (unfilled, 12%Z).

(** The bot holds [held] of the sample token, last seen at [seen] in the
    tracked wallet. *)
Definition holding (held seen : Q) : TrackerState :=
  with_botBalances {[ TKN := held ]}
    (with_previousBalances {[ TKN := seen ]} initialState).

(** A log notification of a transaction that went through. *)
Definition logsOf (signature : string) : Logs :=
  {| logs_signature := signature; logs_err := false |}.

Definition isSwapped (e : Event) : bool :=
  match e with Swapped _ _ _ => true | Notified _ => false end.

(** ** Runs of the event loop, resumption by resumption *)

(** The token a swap call trades against SOL. *)
Definition swappedToken (call : SwapCall) : string :=
  match call with
  | executeSwapBuy _ outputMint _ => outputMint
  | executeSwapSell inputMint _ _ => inputMint
  end.

(** [always R t]: every resumption of [t], now or later, takes the module
    state from [s] to [s'] with [R e s s'], [e] being the resumption as the
    outside world sees it. *)
Inductive always (R : Event -> TrackerState -> TrackerState -> Prop) : Task -> Prop :=
| always_done : always R Done
| always_swap call k :
    (forall result latency s, R (Swapped call result latency) s (k result latency s).1) ->
    (forall result latency s, always R (k result latency s).2) ->
    always R (AwaitSwap call k)
| always_notify n k :
    (forall s, R (Notified n) s (k s).1) ->
    (forall s, always R (k s).2) ->
    always R (AwaitNotify n k).

(** [chain R s es s']: the resumptions [es] lead from [s] to [s'] through
    states related by [R]. *)
Inductive chain (R : Event -> TrackerState -> TrackerState -> Prop)
    : TrackerState -> list Event -> TrackerState -> Prop :=
| chain_nil s : chain R s [] s
| chain_cons s e s1 es s2 :
    R e s s1 -> chain R s1 es s2 -> chain R s (e :: es) s2.

(** The ledger entry of a token moves only when a swap of that token settles
    with success. *)
Definition ledgerMove (e : Event) (s s' : TrackerState) : Prop :=
  forall token, botBalances s' !! token <> botBalances s !! token ->
    exists call result latency,
      e = Swapped call result latency
      /\ success result = true /\ token = swappedToken call.

(** What a resumption leaves alone: the signatures seen, the debounce clock
    and the two counters of the module. *)
Definition bookkeepingKept (e : Event) (s s' : TrackerState) : Prop :=
  processedSignatures s' = processedSignatures s
  /\ lastBalanceCheck s' = lastBalanceCheck s
  /\ tradeCount s' = tradeCount s
  /\ apiCallCount s' = apiCallCount s
  /\ trackedWalletSignatures s' = trackedWalletSignatures s.

(** The metrics grow by one trade per call of [updatePerformanceMetrics], and
    their [apiCallCount] field is never written. *)
Definition metricsShape (s : TrackerState) : Prop :=
  length (Metrics.latencies (metrics s)) = Metrics.totalTrades (metrics s)
  /\ Metrics.apiCallCount (metrics s) = 0%nat.

Definition metricsShapeKept (e : Event) (s s' : TrackerState) : Prop :=
  metricsShape s -> metricsShape s'.

(** The trades that a settled callback adds to the metrics are at most the
    swaps it performed. *)
Definition recordsAtMostItsSwaps (exec : SwapExecutor) (fuel : nat) (t : Task) : Prop :=
  forall s s' es, settle exec fuel t s = Some (s', es) ->
    (Metrics.totalTrades (metrics s')
       <= Metrics.totalTrades (metrics s) + length (filter isSwapped es))%nat
    /\ tradeCount s' = tradeCount s
    /\ length (filter isSwapped es) = length (inFlight [t]).

End Tracker.

(** ** The polling tracker of [src/tracker.ts] *)

Module Legacy.

Import Tracker.

(** A [number] that may be NaN ([None]): this fetch stores what [parseFloat]
    answers. *)
Definition number := option Q.

Definition gt (a b : number) : bool :=
  match a, b with Some x, Some y => Js.gt x y | _, _ => false end.

Definition isZero (a : number) : bool :=
  match a with Some x => Js.eq x 0 | None => false end.

(** [m.get(k) ?? 0] *)
Definition getOr0 (m : gmap string number) (k : string) : number :=
  default (Some 0) (m !! k).

Section Fetch.

Variable parseFloat : string -> option Q.

Fixpoint addAccounts (tokenBalances : gmap string number)
    (accounts : list TokenAccount)
    : Completion (gmap string number) :=
  match accounts with
  | [] => Normal tokenBalances
  | Unparsed :: _ => Throw "TypeError"
  | Parsed tokenAddress uiAmountString :: rest =>
      addAccounts (<[tokenAddress := parseFloat uiAmountString]> tokenBalances) rest
  end.

(** [fetchCurrentTokenBalances(walletAddress)] *)
Definition fetchCurrentTokenBalances (walletAddress : string)
    (response : RpcResponse) : gmap string number :=
  match response with
  | Rejected _ => ∅
  | Resolved value =>
      match addAccounts ∅ value with
      | Normal tokenBalances => tokenBalances
      | Throw _ => ∅
      end
  end.

End Fetch.

Inductive Action :=
| Swap (call : SwapCall)
| sendTelegramMessage (type walletAddress token : string) (balance : number)
| waitForBalanceUpdate (walletAddress token : string).

Section Compare.

Variable TRADE_AMOUNT_LAMPORTS : Q.
Variable isFirstRun : bool.
Variable walletAddress : string.
Variables previousBalances latestBalances : gmap string number.

(** The body of the [for] loop.  The awaited swap result is an object, hence
    truthy: the message that follows a swap is always sent. *)
Definition tokenActions (token : string) : list Action :=
  let oldBalance := getOr0 previousBalances token in
  let newBalance := getOr0 latestBalances token in
  if negb isFirstRun then
    if isZero oldBalance && gt newBalance (Some 0) then
      [ Swap (executeSwapBuy solMint token TRADE_AMOUNT_LAMPORTS);
        sendTelegramMessage "BUY" walletAddress token newBalance;
        waitForBalanceUpdate walletAddress token ]
    else if gt newBalance oldBalance then
      let buyAmount := TRADE_AMOUNT_LAMPORTS * (25 # 100) in
      [ Swap (executeSwapBuy solMint token buyAmount);
        sendTelegramMessage "INCREASE" walletAddress token newBalance ]
    else if isZero newBalance && gt oldBalance (Some 0) then
      [ Swap (executeSwapSell token solMint 100);
        sendTelegramMessage "SELL" walletAddress token (Some 0) ]
    else []
  else [].

(** [compareBalances(walletAddress, previousBalances, latestBalances)]: what
    the loop does, in order. *)
Definition compareBalances : list Action :=
  let allTokens := remove_dups (Js.keys previousBalances ++ Js.keys latestBalances) in
  concat (map tokenActions allTokens).

End Compare.

(** The function [waitForBalanceUpdate(walletAddress, token, retries)], named
    apart from the action above: [poll i] is how the RPC call of the [i]-th
    round settles.  The answer comes with the number of fetches made; the
    pauses between rounds are left out. *)
Section Wait.

Variable parseFloat : string -> option Q.
Variable walletAddress : string.
Variable token : string.
Variable poll : nat -> RpcResponse.

Fixpoint waitFrom (i remaining : nat) : bool * nat :=
  match remaining with
  | O => (false, i)
  | S remaining =>
      let balances := fetchCurrentTokenBalances parseFloat walletAddress (poll i) in
      let balance := getOr0 balances token in
      if gt balance (Some 0) then (true, S i) else waitFrom (S i) remaining
  end.

Definition runWaitForBalanceUpdate (retries : nat) : bool * nat :=
  waitFrom 0 retries.

End Wait.

(** The variables of [trackWalletBalances] and the module's [isFirstRun]. *)
Record PollState := {
  poll_previousBalances : gmap string number;
  poll_isFirstRun : bool
}.

(** [let previousBalances = new Map()] and [let isFirstRun = true] *)
Definition pollStart : PollState :=
  {| poll_previousBalances := ∅; poll_isFirstRun := true |}.

(** One round of the [setInterval] callback of [trackWalletBalances], the
    comparison it starts taken to its end. *)
Definition tick (parseFloat : string -> option Q) (TRADE_AMOUNT_LAMPORTS : Q)
    (walletAddress : string) (response : RpcResponse) (st : PollState)
    : list Action * PollState :=
  let latestBalances := fetchCurrentTokenBalances parseFloat walletAddress response in
  (compareBalances TRADE_AMOUNT_LAMPORTS (poll_isFirstRun st) walletAddress
     (poll_previousBalances st) latestBalances,
   {| poll_previousBalances := latestBalances; poll_isFirstRun := false |}).

End Legacy.

(** ** The trader: how much a sell sells *)

Module Trader.

(** [{ success: false, outAmount: 0 }] *)
Definition refused : Tracker.SwapResult :=
  {| Tracker.success := false; Tracker.outAmount := 0;
     Tracker.signature := None; Tracker.dex := None |}.

Section Balance.

(** The host's [parseInt]; [None] is NaN. *)
Variable parseInt : string -> option Z.

(** [getTokenBalance(tokenAddress, connection)]: [accounts] is how
    [getTokenAccountsByOwner] settles (the public keys of [value]),
    [balanceOf] how [getTokenAccountBalance] settles ([value.amount]).  The
    result is a number, NaN being [None]. *)
Definition getTokenBalance (accounts : Tracker.Completion (list string))
    (balanceOf : string -> Tracker.Completion string) : option Z :=
  match accounts with
  | Tracker.Throw _ => Some 0%Z
  | Tracker.Normal [] => Some 0%Z
  | Tracker.Normal (pubkey :: _) =>
      match balanceOf pubkey with
      | Tracker.Throw _ => Some 0%Z
      | Tracker.Normal amount => parseInt amount
      end
  end.

End Balance.

Section Swap.

(** [executeSwap(inputMint, outputMint, amount)], the quote and the swap on
    chain, as an oracle; the amount is a number, NaN being [None]. *)
Variable executeSwap : string -> string -> option Q -> Tracker.SwapResult.

(** [executeSwapBuy(inputMint, outputMint, amount)] *)
Definition executeSwapBuy (inputMint outputMint : string) (amount : Q)
    : Tracker.SwapResult :=
  executeSwap inputMint outputMint (Some amount).

(** [sellAmount] of [executeSwapSell] *)
Definition sellAmount (tokenBalance : option Z) (percentageToSell : Q) : option Z :=
  match tokenBalance with
  | None => None
  | Some balance =>
      if Js.eq percentageToSell 100 then Some balance
      else Some (Js.floor (inject_Z balance * percentageToSell / 100))
  end.

(** [executeSwapSell(inputMint, outputMint, percentageToSell)], given what the
    awaited [getTokenBalance] answered.  A comparison with NaN is false. *)
Definition executeSwapSell (inputMint outputMint : string) (percentageToSell : Q)
    (tokenBalance : option Z) : Tracker.SwapResult :=
  if match tokenBalance with Some balance => (balance <=? 0)%Z | None => false end
  then refused
  else
    let sellAmount := sellAmount tokenBalance percentageToSell in
    if match sellAmount with Some amount => (amount =? 0)%Z | None => false end
       && Js.gt percentageToSell 0
    then refused
    else executeSwap inputMint outputMint (inject_Z <$> sellAmount).

End Swap.

End Trader.

(** ** The notifier: what an alert shows *)

Module Notify.

Import Tracker.

(** The value of a field of the embed.  A number that the code prints with
    [toFixed] is kept as the number. *)
Inductive FieldValue :=
| Code (text : string)
| Fixed6 (x : Q)
| FixedWithPercent (x percent : Q)
| PercentOf (percent : Q)
| SolValue (sol : Q)
| Text (text : string)
| SolscanLink (signature : string).

Record Field := { name : string; value : FieldValue }.

Record Embed := {
  title : string;
  description : string;
  color : Z;
  fields : list Field;
  footerLatency : option Z
}.

(** [typeof details === "number"] *)
Definition isNumber (details : NotificationDetails) : bool :=
  match details with Tokens _ => true | _ => false end.

(** [isWalletDetails(details)] *)
Definition isWalletDetails (details : NotificationDetails) : bool :=
  match details with WalletIncrease _ _ => true | _ => false end.

(** [isSolReturnedWithDecrease(details)] *)
Definition isSolReturnedWithDecrease (details : NotificationDetails) : bool :=
  match details with SolReturnedDecrease _ _ => true | _ => false end.

(** [isSolReturnedWithBalance(details)] *)
Definition isSolReturnedWithBalance (details : NotificationDetails) : bool :=
  match details with SolReturnedBalance _ _ => true | _ => false end.

(** [dex || "Jupiter Aggregator"]: the empty string is falsy. *)
Definition dexUsed (dex : option string) : FieldValue :=
  match dex with
  | Some d => if String.eqb d "" then Text "Jupiter Aggregator" else Text d
  | None => Text "Jupiter Aggregator"
  end.

(** [signature ? `[View on Solscan](https://solscan.io/tx/${signature})` : "N/A"] *)
Definition transaction (signature : option string) : FieldValue :=
  match signature with
  | Some sig => if String.eqb sig "" then Text "N/A" else SolscanLink sig
  | None => Text "N/A"
  end.

(** [tradeLamports ? (tradeLamports / 1_000_000_000).toFixed(6) : "0.000000"],
    the latter being what [toFixed(6)] prints for 0. *)
Definition tradeValueSol (tradeLamports : option Q) : Q :=
  match tradeLamports with
  | Some lamports => if Js.truthy lamports then lamports / 1000000000 else 0
  | None => 0
  end.

(** The fields that [sendWalletNotification] builds. *)
Definition walletFields (type : NotificationType) (walletAddress token : string)
    (details : NotificationDetails) (signature dex : option string) : list Field :=
  match type, details with
  | BUY, Tokens amount =>
      [ {| name := "💳 Tracked Wallet"; value := Code walletAddress |};
        {| name := "🪙 Token Address"; value := Code token |};
        {| name := "💰 Tokens Bought"; value := Fixed6 amount |};
        {| name := "🔄 DEX Used"; value := dexUsed dex |};
        {| name := "🔗 Transaction"; value := transaction signature |} ]
  | INCREASE_ALERT, WalletIncrease wallet increasePercent =>
      [ {| name := "💳 Wallet Address"; value := Code walletAddress |};
        {| name := "🪙 Token Address"; value := Code token |};
        {| name := "💰 New Token Balance";
           value := FixedWithPercent wallet increasePercent |};
        {| name := "🔄 DEX Used"; value := dexUsed dex |};
        {| name := "🔗 Transaction"; value := transaction signature |} ]
  | DECREASE_ALERT, SolReturnedDecrease solReturned decreasePercent =>
      [ {| name := "💳 Tracked Wallet"; value := Code walletAddress |};
        {| name := "🪙 Token Address"; value := Code token |};
        {| name := "💰 SOL Returned"; value := Fixed6 solReturned |};
        {| name := "📉 Decrease %"; value := PercentOf decreasePercent |};
        {| name := "🔄 DEX Used"; value := dexUsed dex |};
        {| name := "🔗 Transaction"; value := transaction signature |} ]
  | SELL, SolReturnedBalance solReturned _ =>
      [ {| name := "💳 Tracked Wallet"; value := Code walletAddress |};
        {| name := "🪙 Token Sold"; value := Code token |};
        {| name := "💰 SOL Returned"; value := Fixed6 solReturned |};
        {| name := "🔄 DEX Used"; value := dexUsed dex |};
        {| name := "🔗 Transaction"; value := transaction signature |} ]
  | _, _ =>
      [ {| name := "💳 Tracked Wallet"; value := Code walletAddress |};
        {| name := "🪙 Token Address"; value := Code token |};
        {| name := "🔄 DEX Used"; value := dexUsed dex |} ]
  end.

(** [sendWalletNotification(...)]: the embed posted to the webhook, [None]
    when no webhook is configured. *)
Definition sendWalletNotification (webhook : string) (type : NotificationType)
    (walletAddress token : string) (details : NotificationDetails) (latency : Z)
    (tradeLamports : option Q) (signature dex : option string) : option Embed :=
  if String.eqb webhook "" then None
  else
    let fields := walletFields type walletAddress token details signature dex in
    let '(color, title) :=
      match type with
      | BUY => (65280%Z, "🟢 Trade Completed (Buy)"%string)
      | SELL => (16711680%Z, "🔴 Trade Completed (Tracked Wallet Sell)"%string)
      | INCREASE_ALERT => (3447003%Z, "📈 Trade Completed (Increase Alert)"%string)
      | DECREASE_ALERT =>
          (16753920%Z, "🟡 Decrease Alert (Tracked Wallet Partial Sell)"%string)
      end in
    Some {| title := title; description := "A trade was executed!";
            color := color; fields := fields; footerLatency := None |}.

(** [amount] of [sendBotNotification] *)
Definition botAmount (type : NotificationType) (details : NotificationDetails)
    : FieldValue :=
  match type, details with
  | BUY, Tokens amount => Fixed6 amount
  | DECREASE_ALERT, SolReturnedDecrease solReturned _ => Fixed6 solReturned
  | SELL, SolReturnedBalance solReturned _ => Fixed6 solReturned
  | _, _ => Text "0"
  end.

(** [sendBotNotification(...)], whose [type] has no ["INCREASE ALERT"]: the
    [default] case of its [switch] stands for it. *)
Definition sendBotNotification (webhook : string) (type : NotificationType)
    (walletAddress token : string) (details : NotificationDetails) (latency : Z)
    (tradeLamports : option Q) (signature dex : option string) : option Embed :=
  if String.eqb webhook "" then None
  else
    let amount := botAmount type details in
    let '(color, title, fields) :=
      match type with
      | BUY =>
          (65280%Z, "🟢 Trade Completed (Bot Buy)"%string,
           [ {| name := "💳 Bot Wallet"; value := Code walletAddress |};
             {| name := "🪙 Token Address"; value := Code token |};
             {| name := "💵 Trade Value";
                value := SolValue (tradeValueSol tradeLamports) |};
             {| name := "💰 Tokens Bought"; value := amount |};
             {| name := "🔄 DEX Used"; value := dexUsed dex |};
             {| name := "🔗 Transaction"; value := transaction signature |} ])
      | SELL =>
          (16711680%Z, "🔴 Trade Completed (Bot Sell)"%string,
           [ {| name := "💳 Bot Wallet"; value := Code walletAddress |};
             {| name := "🪙 Token Sold"; value := Code token |};
             {| name := "💰 SOL Returned"; value := amount |};
             {| name := "🔄 DEX Used"; value := dexUsed dex |};
             {| name := "🔗 Transaction"; value := transaction signature |} ])
      | DECREASE_ALERT =>
          (16753920%Z, "🟡 Decrease Alert (Bot Partial Sell)"%string,
           [ {| name := "💳 Bot Wallet"; value := Code walletAddress |};
             {| name := "🪙 Token Address"; value := Code token |};
             {| name := "💰 SOL Returned"; value := amount |};
             {| name := "📉 Decrease %";
                value := match details with
                         | SolReturnedDecrease _ decreasePercent =>
                             PercentOf decreasePercent
                         | _ => Text "N/A"
                         end |};
             {| name := "🔗 Transaction"; value := transaction signature |} ])
      | INCREASE_ALERT =>
          (0%Z, "⚠️ Unknown Trade Type"%string,
           [ {| name := "💳 Bot Wallet"; value := Code walletAddress |};
             {| name := "🪙 Token Address"; value := Code token |};
             {| name := "🔄 DEX Used"; value := dexUsed dex |} ])
      end in
    Some {| title := title; description := "A bot trade was executed!";
            color := color; fields := fields; footerLatency := Some latency |}.





End Notify.

(** * Properties *)

Import Tracker.

(** ** JavaScript comparisons and maps *)

Section JsFacts.

Import Js.

Lemma Js_gt_true a b : gt a b = true <-> b < a.
Proof.
  unfold gt. rewrite negb_true_iff, <- not_true_iff_false, Qle_bool_iff.
  split; [apply Qnot_le_lt | apply Qlt_not_le].
Qed.

Lemma Js_gt_false a b : gt a b = false <-> a <= b.
Proof. unfold gt. rewrite negb_false_iff. apply Qle_bool_iff. Qed.

Lemma Js_lt_true a b : lt a b = true <-> a < b.
Proof. apply Js_gt_true. Qed.

Lemma Js_le_true a b : le a b = true <-> a <= b.
Proof. apply Qle_bool_iff. Qed.

Lemma Js_le_false a b : le a b = false <-> b < a.
Proof.
  unfold le. rewrite <- not_true_iff_false, Qle_bool_iff.
  split; [apply Qnot_le_lt | apply Qlt_not_le].
Qed.

Lemma Js_has_true {V} (m : gmap string V) k : has m k = true <-> is_Some (m !! k).
Proof. unfold has. rewrite bool_decide_eq_true. reflexivity. Qed.

Lemma Js_has_false {V} (m : gmap string V) k : has m k = false <-> m !! k = None.
Proof.
  unfold has. rewrite bool_decide_eq_false, eq_None_not_Some. reflexivity.
Qed.

Lemma Js_elem_of_keys {V} (m : gmap string V) k : k ∈ keys m <-> is_Some (m !! k).
Proof.
  unfold keys. rewrite list_elem_of_fmap. split.
  - intros [[k' v] [-> Hin]]. apply elem_of_map_to_list in Hin. eauto.
  - intros [v Hv]. exists (k, v). split; [reflexivity |].
    by apply elem_of_map_to_list.
Qed.

Lemma Js_NoDup_keys {V} (m : gmap string V) : NoDup (keys m).
Proof. apply NoDup_fst_map_to_list. Qed.

Lemma Js_getOr0_None m k : m !! k = None -> getOr0 m k = 0.
Proof. unfold getOr0. by intros ->. Qed.

Lemma Js_getOr0_Some m k v : m !! k = Some v -> getOr0 m k = v.
Proof. unfold getOr0. by intros ->. Qed.


End JsFacts.

(** ** Metrics *)

Section MetricsFacts.

Import Metrics.

Lemma Metrics_update_totalTrades tc lat ok m :
  totalTrades (updatePerformanceMetrics tc lat ok m) = S (totalTrades m).
Proof. simpl. lia. Qed.

Lemma Metrics_update_successful_le tc lat ok m :
  (successfulTrades m <= totalTrades m)%nat ->
  (successfulTrades (updatePerformanceMetrics tc lat ok m)
     <= totalTrades (updatePerformanceMetrics tc lat ok m))%nat.
Proof. destruct ok; simpl; lia. Qed.

Lemma Metrics_update_latencies_length tc lat ok m :
  length (latencies (updatePerformanceMetrics tc lat ok m))
  = S (length (latencies m)).
Proof. simpl. rewrite length_app. simpl. lia. Qed.


End MetricsFacts.

(** ** The snapshot fetch *)

Section FetchFacts.

Variable parseFloat : string -> option Q.

Lemma addAccounts_throws accounts :
  existsb isUnparsed accounts = true ->
  forall m, exists e, addAccounts parseFloat m accounts = Throw e.
Proof.
  induction accounts as [|account rest IH]; simpl; [discriminate |].
  intros Hex m. destruct account as [mint ui|]; simpl in *.
  - destruct (parseFloat ui) as [balance|]; [destruct (Js.gt balance 0) |];
      apply IH, Hex.
  - eauto.
Qed.

Lemma addAccounts_normal accounts :
  existsb isUnparsed accounts = false ->
  forall m, exists m', addAccounts parseFloat m accounts = Normal m'.
Proof.
  induction accounts as [|account rest IH]; simpl; [eauto |].
  intros Hex m. destruct account as [mint ui|]; simpl in *; [| discriminate].
  destruct (parseFloat ui) as [balance|]; [destruct (Js.gt balance 0) |];
    apply IH, Hex.
Qed.

Lemma legacy_addAccounts_throws accounts :
  existsb isUnparsed accounts = true ->
  forall m, exists e, Legacy.addAccounts parseFloat m accounts = Throw e.
Proof.
  induction accounts as [|account rest IH]; simpl; [discriminate |].
  intros Hex m. destruct account as [mint ui|]; simpl in *; eauto.
Qed.

(** Every entry of the map built by the loop was already there or comes from
    an account whose parsed balance is positive. *)
Lemma addAccounts_entries accounts :
  forall m m', addAccounts parseFloat m accounts = Normal m' ->
  forall mint v, m' !! mint = Some v ->
    m !! mint = Some v \/
    (0 < v /\ exists ui, Parsed mint ui ∈ accounts /\ parseFloat ui = Some v).
Proof.
  induction accounts as [|account rest IH]; simpl; intros m m' Hrun mint v Hv.
  - injection Hrun as <-. by left.
  - destruct account as [mint0 ui|]; simpl in Hrun; [| discriminate].
    assert (Hrest : forall m0, addAccounts parseFloat m0 rest = Normal m' ->
              m0 !! mint = Some v \/
              (0 < v /\ exists ui', Parsed mint ui' ∈ Parsed mint0 ui :: rest
                                   /\ parseFloat ui' = Some v)).
    { intros m0 H0. destruct (IH _ _ H0 _ _ Hv) as [?|(? & ui' & ? & ?)];
        [by left | right]. split; [done |]. exists ui'. split; [| done].
      by apply list_elem_of_further. }
    destruct (parseFloat ui) as [balance|] eqn:Hparse; [| by apply Hrest].
    destruct (Js.gt balance 0) eqn:Hpos; [| by apply Hrest].
    destruct (Hrest _ Hrun) as [Hin|?]; [| by right].
    destruct (decide (mint0 = mint)) as [->|Hne].
    + rewrite lookup_insert_eq in Hin. injection Hin as ->. right.
      split; [by apply Js_gt_true |]. exists ui. split; [| done].
      apply list_elem_of_here.
    + rewrite lookup_insert_ne in Hin by done. by left.
Qed.

(** C9: whenever the balance fetch fails (the RPC promise rejects, or the
    answer cannot be read as parsed token accounts), the poll returns the
    empty balance map to its caller instead of an exception; so does the
    poll of the older tracker. *)
Theorem poll_failure_returns_empty_map walletAddress response s :
  fetchFails response = true ->
  (getWalletTokenBalances parseFloat walletAddress response s).2 = ∅
  /\ Legacy.fetchCurrentTokenBalances parseFloat walletAddress response = ∅.
Proof.
  intros Hfail. unfold getWalletTokenBalances, Legacy.fetchCurrentTokenBalances.
  destruct response as [value|e]; simpl in *; [| done].
  destruct (addAccounts_throws value Hfail ∅) as [e ->].
  destruct (legacy_addAccounts_throws value Hfail ∅) as [e' ->]. done.
Qed.

(** C10: every value of a map returned by the snapshot fetch is strictly
    positive, and a token all of whose accounts report the balance 0 has no
    entry in the map. *)
Theorem snapshot_holds_only_positive_balances walletAddress response s mint :
  let tokenBalances :=
    (getWalletTokenBalances parseFloat walletAddress response s).2 in
  (forall v, tokenBalances !! mint = Some v -> 0 < v)
  /\ ((forall value ui, response = Resolved value -> Parsed mint ui ∈ value ->
         exists balance, parseFloat ui = Some balance /\ balance == 0) ->
      tokenBalances !! mint = None).
Proof.
  assert (Hentries : forall v,
    (getWalletTokenBalances parseFloat walletAddress response s).2 !! mint = Some v ->
    0 < v /\ exists value ui, response = Resolved value /\ Parsed mint ui ∈ value
                              /\ parseFloat ui = Some v).
  { intros v. unfold getWalletTokenBalances.
    destruct response as [value|e]; simpl; [| by rewrite lookup_empty].
    destruct (addAccounts parseFloat ∅ value) as [m'|e] eqn:Hrun; simpl;
      [| by rewrite lookup_empty].
    intros Hv. destruct (addAccounts_entries _ _ _ Hrun _ _ Hv)
      as [Hin|(? & ui & ? & ?)]; [by rewrite lookup_empty in Hin |].
    split; [done |]. by exists value, ui. }
  simpl. split.
  - intros v Hv. by apply Hentries.
  - intros Hzero.
    destruct (_ !! mint) as [v|] eqn:Hv; [| done].
    destruct (Hentries v eq_refl) as (Hpos & value & ui & -> & Hin & Hparse).
    destruct (Hzero value ui eq_refl Hin) as (balance & Hparse' & Hz).
    rewrite Hparse in Hparse'. injection Hparse' as ->.
    rewrite Hz in Hpos. by apply Qlt_irrefl in Hpos.
Qed.

End FetchFacts.

Lemma poll_failure_returns_empty_map_witness :
  (getWalletTokenBalances Js.parseDecimal "W"
     (Resolved [Parsed "A" "1.5"; Unparsed])
     initialState).2 = ∅
  /\ Legacy.fetchCurrentTokenBalances Js.parseDecimal "W"
       (Resolved [Parsed "A" "1.5"; Unparsed]) = ∅.
Proof.
  apply (poll_failure_returns_empty_map Js.parseDecimal "W"
           (Resolved [Parsed "A" "1.5"; Unparsed])
           initialState).
  vm_compute; reflexivity.
Defined.

Lemma snapshot_holds_only_positive_balances_witness :
  (getWalletTokenBalances Js.parseDecimal "W"
     (Resolved [Parsed "A" "1.5"; Parsed "B" "0"])
     initialState).2 !! "B"%string = None.
Proof.
  apply (snapshot_holds_only_positive_balances Js.parseDecimal "W"
           (Resolved [Parsed "A" "1.5"; Parsed "B" "0"])
           initialState "B").
  intros value ui Hresp Hin. injection Hresp as <-.
  exists 0. split; [| reflexivity].
  apply elem_of_cons in Hin as [Hin|Hin]; [discriminate |].
  apply elem_of_cons in Hin as [Hin|Hin]; [| by apply not_elem_of_nil in Hin].
  injection Hin as ->. reflexivity.
Defined.

(** ** The synchronous part of a pass *)

Section SpawnFacts.

Variable cfg : Config.
Variable walletAddress : string.
Variables oldBalances newBalances : gmap string Q.

Local Abbreviation tradeHandler := (tradeHandler cfg walletAddress oldBalances newBalances).
Local Abbreviation sellHandler := (sellHandler cfg newBalances).

Lemma sameFor_refl token s : sameFor token s s.
Proof. by repeat split. Qed.

Lemma sameFor_trans token s1 s2 s3 :
  sameFor token s1 s2 -> sameFor token s2 s3 -> sameFor token s1 s3.
Proof. intros (? & ? & ?) (? & ? & ?). repeat split; congruence. Qed.

Lemma sameFor_incr_apiCallCount token s : sameFor token s (incr_apiCallCount s).
Proof. by repeat split. Qed.

Lemma tradeBranch_sameFor token s s' o n :
  sameFor token s s' -> tradeBranch s o n token = tradeBranch s' o n token.
Proof.
  intros (Hbot & Hprev & _). unfold tradeBranch, Js.has. by rewrite Hbot, Hprev.
Qed.

Lemma fullSellBranch_botBalances token s s' :
  botBalances s !! token = botBalances s' !! token ->
  fullSellBranch s newBalances token = fullSellBranch s' newBalances token.
Proof. intros Hbot. unfold fullSellBranch, Js.getOr0. by rewrite Hbot. Qed.

(** The promise left by a callback depends on the state only through the
    entries of its own token. *)
Lemma tradeHandler_task_sameFor token s s' :
  sameFor token s s' -> (tradeHandler token s).2 = (tradeHandler token s').2.
Proof.
  intros Hsame. unfold Tracker.tradeHandler.
  rewrite (tradeBranch_sameFor _ _ _ _ _ Hsame).
  destruct Hsame as (Hbot & Hprev & Hsig).
  destruct (tradeBranch s' _ _ token) as [[| |]|]; simpl; try reflexivity.
  - unfold Js.getOr0. by rewrite Hprev, Hsig.
  - unfold Js.getOr0. rewrite Hbot. by destruct (Js.gt _ 0).
Qed.

Lemma sellHandler_task_botBalances token s s' :
  botBalances s !! token = botBalances s' !! token ->
  (sellHandler token s).2 = (sellHandler token s').2.
Proof.
  intros Hbot. unfold Tracker.sellHandler.
  rewrite (fullSellBranch_botBalances _ _ _ Hbot).
  by destruct (fullSellBranch s' newBalances token).
Qed.

(** The synchronous part of a callback leaves the entries of the other tokens
    alone. *)
Lemma tradeHandler_frame token token' s :
  token <> token' -> sameFor token' s (tradeHandler token s).1.
Proof.
  intros Hne. unfold Tracker.tradeHandler.
  destruct (tradeBranch s _ _ token) as [[| |]|]; simpl.
  - by repeat split.
  - repeat split; simpl; try done. by rewrite lookup_insert_ne.
  - destruct (Js.gt _ 0); by repeat split.
  - by repeat split.
Qed.

Lemma tradeHandler_botBalances token s :
  botBalances (tradeHandler token s).1 = botBalances s.
Proof.
  unfold Tracker.tradeHandler.
  destruct (tradeBranch s _ _ token) as [[| |]|]; simpl; try done.
  by destruct (Js.gt _ 0).
Qed.

Lemma sellHandler_botBalances token s :
  botBalances (sellHandler token s).1 = botBalances s.
Proof.
  unfold Tracker.sellHandler. by destruct (fullSellBranch s newBalances token).
Qed.

Lemma spawn_trade_tasks tokens : NoDup tokens ->
  forall s0 s, (forall token, token ∈ tokens -> sameFor token s0 s) ->
  (spawn tradeHandler tokens s).2 = (fun token => (tradeHandler token s0).2) <$> tokens.
Proof.
  induction 1 as [|token rest Hnotin Hnodup IH]; intros s0 s Hsame; [done |].
  simpl. destruct (tradeHandler token s) as [s1 t] eqn:Hh.
  destruct (spawn _ rest s1) as [s2 ts] eqn:Hsp. simpl. f_equal.
  - replace t with (tradeHandler token s).2 by by rewrite Hh.
    symmetry. apply tradeHandler_task_sameFor, Hsame, list_elem_of_here.
  - replace ts with (spawn tradeHandler rest s1).2 by by rewrite Hsp.
    apply IH. intros token' Hin.
    apply sameFor_trans with s; [by apply Hsame, list_elem_of_further |].
    replace s1 with (tradeHandler token s).1 by by rewrite Hh.
    apply tradeHandler_frame. by intros ->.
Qed.

Lemma spawn_sell_tasks tokens :
  forall s0 s, botBalances s0 = botBalances s ->
  (spawn sellHandler tokens s).2 = (fun token => (sellHandler token s0).2) <$> tokens.
Proof.
  induction tokens as [|token rest IH]; intros s0 s Hbot; [done |].
  simpl. destruct (sellHandler token s) as [s1 t] eqn:Hh.
  destruct (spawn _ rest s1) as [s2 ts] eqn:Hsp. simpl. f_equal.
  - replace t with (sellHandler token s).2 by by rewrite Hh.
    symmetry. apply sellHandler_task_botBalances. by rewrite Hbot.
  - replace ts with (spawn sellHandler rest s1).2 by by rewrite Hsp.
    apply IH. rewrite Hbot.
    replace s1 with (sellHandler token s).1 by by rewrite Hh.
    symmetry. apply sellHandler_botBalances.
Qed.

Lemma spawn_trade_botBalances tokens s :
  botBalances (spawn tradeHandler tokens s).1 = botBalances s.
Proof.
  revert s. induction tokens as [|token rest IH]; intros s; [done |].
  simpl. destruct (tradeHandler token s) as [s1 t] eqn:Hh.
  specialize (IH s1). destruct (spawn _ rest s1) as [s2 ts]. simpl in *.
  rewrite IH. replace s1 with (tradeHandler token s).1 by by rewrite Hh.
  apply tradeHandler_botBalances.
Qed.

Lemma spawn_sell_botBalances tokens s :
  botBalances (spawn sellHandler tokens s).1 = botBalances s.
Proof.
  revert s. induction tokens as [|token rest IH]; intros s; [done |].
  simpl. destruct (sellHandler token s) as [s1 t] eqn:Hh.
  specialize (IH s1). destruct (spawn _ rest s1) as [s2 ts]. simpl in *.
  rewrite IH. replace s1 with (sellHandler token s).1 by by rewrite Hh.
  apply sellHandler_botBalances.
Qed.

(** The promises of a pass, callback by callback: each is what its callback
    leaves when run on the state the pass started from. *)
Lemma compareBalances_spawn_pool s :
  (compareBalances_spawn cfg walletAddress oldBalances newBalances s).2
  = ((fun token => (tradeHandler token s).2) <$> Js.keys newBalances)
    ++ ((fun token => (sellHandler token s).2) <$> Js.keys oldBalances).
Proof.
  unfold compareBalances_spawn.
  destruct (spawn tradeHandler _ _) as [s1 tradePromises] eqn:Htrade.
  destruct (spawn sellHandler _ s1) as [s2 sellPromises] eqn:Hsell. simpl.
  f_equal.
  - replace tradePromises with
      (spawn tradeHandler (Js.keys newBalances) (incr_apiCallCount s)).2
      by by rewrite Htrade.
    apply spawn_trade_tasks; [apply Js_NoDup_keys |].
    intros token _. apply sameFor_incr_apiCallCount.
  - replace sellPromises with (spawn sellHandler (Js.keys oldBalances) s1).2
      by by rewrite Hsell.
    rewrite (spawn_sell_tasks _ s s1); [done |].
    replace s1 with
      (spawn tradeHandler (Js.keys newBalances) (incr_apiCallCount s)).1
      by by rewrite Htrade.
    by rewrite spawn_trade_botBalances.
Qed.

End SpawnFacts.

(** ** The branches of the first callback *)

Section BranchFacts.

Lemma tradeBranch_initialBuy_iff s o n token :
  tradeBranch s o n token = Some InitialBuy
  <-> o < n /\ botBalances s !! token = None /\ previousBalances s !! token = None.
Proof.
  unfold tradeBranch.
  destruct (Js.gt n o) eqn:Hgt; simpl.
  - apply Js_gt_true in Hgt.
    destruct (Js.has (botBalances s) token) eqn:Hbot; simpl.
    + apply Js_has_true in Hbot as [v Hv]. split; [discriminate |].
      intros (_ & Hnone & _). congruence.
    + apply Js_has_false in Hbot.
      destruct (Js.has (previousBalances s) token) eqn:Hprev; simpl.
      * apply Js_has_true in Hprev as [v Hv]. split; [discriminate |].
        intros (_ & _ & Hnone). congruence.
      * apply Js_has_false in Hprev. by split.
  - apply Js_gt_false in Hgt. split.
    + destruct (Js.lt n o && Js.gt n 0); discriminate.
    + intros (Hlt & _). exfalso. lra.
Qed.

Lemma tradeBranch_increase_iff s o n token :
  tradeBranch s o n token = Some IncreaseInStake
  <-> o < n /\ (is_Some (botBalances s !! token)
                \/ is_Some (previousBalances s !! token)).
Proof.
  unfold tradeBranch.
  destruct (Js.gt n o) eqn:Hgt; simpl.
  - apply Js_gt_true in Hgt.
    destruct (Js.has (botBalances s) token) eqn:Hbot; simpl.
    + apply Js_has_true in Hbot. split; [by auto |]. done.
    + apply Js_has_false in Hbot.
      destruct (Js.has (previousBalances s) token) eqn:Hprev; simpl.
      * apply Js_has_true in Hprev. split; [by auto |]. done.
      * apply Js_has_false in Hprev. split; [discriminate |].
        intros (_ & [[v Hv]|[v Hv]]); congruence.
  - apply Js_gt_false in Hgt. split.
    + destruct (Js.lt n o && Js.gt n 0); discriminate.
    + intros (Hlt & _). exfalso. lra.
Qed.

Lemma tradeBranch_decrease_iff s o n token :
  tradeBranch s o n token = Some DecreaseInStake <-> 0 < n /\ n < o.
Proof.
  unfold tradeBranch.
  destruct (Js.gt n o) eqn:Hgt; simpl.
  - apply Js_gt_true in Hgt. split.
    + destruct (_ && _); discriminate.
    + intros (_ & Hlt). exfalso. lra.
  - destruct (Js.lt n o) eqn:Hlt; simpl.
    + apply Js_lt_true in Hlt. destruct (Js.gt n 0) eqn:Hpos.
      * apply Js_gt_true in Hpos. by split.
      * apply Js_gt_false in Hpos. split; [discriminate |].
        intros (Hn & _). exfalso. lra.
    + split; [discriminate |]. intros (_ & Hno).
      apply Js_lt_true in Hno. congruence.
Qed.

Lemma fullSellBranch_iff s newBalances token :
  fullSellBranch s newBalances token = true
  <-> (newBalances !! token = None \/ Js.getOr0 newBalances token <= 1 # 1000)
      /\ 0 < Js.getOr0 (botBalances s) token.
Proof.
  unfold fullSellBranch.
  rewrite andb_true_iff, orb_true_iff, negb_true_iff.
  by rewrite Js_has_false, Js_le_true, Js_gt_true.
Qed.

(** The percentage mirrored by a partial sell lies strictly between 0 and 100
    (in exact arithmetic). *)
Lemma decreasePercent_bounds o n :
  0 < n -> n < o -> 0 < (o - n) / o * 100 /\ (o - n) / o * 100 < 100.
Proof.
  intros Hn Hlt. assert (Ho : 0 < o) by lra.
  assert (Hinv : 0 < / o) by by apply Qinv_lt_0_compat.
  assert (Hone : o * / o == 1) by (apply Qmult_inv_r; lra).
  unfold Qdiv. split.
  - apply Qmult_lt_0_compat; [| lra].
    apply Qmult_lt_0_compat; [lra | done].
  - assert (Hfrac : (o - n) * / o < 1).
    { assert (Heq : (o - n) * / o == 1 - n * / o) by (field; lra).
      assert (0 < n * / o) by by apply Qmult_lt_0_compat. lra. }
    lra.
Qed.

End BranchFacts.

(** ** The promises of the callbacks *)

Section TaskFacts.

Variable cfg : Config.
Variable walletAddress : string.
Variables oldBalances newBalances : gmap string Q.

Local Abbreviation tradeHandler := (tradeHandler cfg walletAddress oldBalances newBalances).
Local Abbreviation sellHandler := (sellHandler cfg newBalances).

(** What the first callback leaves behind, branch by branch. *)
Lemma tradeHandler_task token s :
  let o := Js.getOr0 oldBalances token in
  let n := Js.getOr0 newBalances token in
  match tradeBranch s o n token with
  | Some InitialBuy =>
      exists k, (tradeHandler token s).2
                = AwaitSwap (executeSwapBuy solMint token (TRADE_AMOUNT_LAMPORTS cfg)) k
  | Some IncreaseInStake =>
      exists details signature,
        (tradeHandler token s).2
        = AwaitNotify
            (sendWalletNotification INCREASE_ALERT walletAddress token details 0
               None signature Jupiter)
            (fun s => (s, Done))
  | Some DecreaseInStake =>
      if Js.gt (Js.getOr0 (botBalances s) token) 0
      then exists k, (tradeHandler token s).2
                     = AwaitSwap (executeSwapSell token solMint ((o - n) / o * 100)) k
      else (tradeHandler token s).2 = Done
  | None => (tradeHandler token s).2 = Done
  end.
Proof.
  simpl. unfold Tracker.tradeHandler.
  destruct (tradeBranch s _ _ token) as [[| |]|]; simpl; eauto.
  destruct (Js.gt _ 0); simpl; eauto.
Qed.

Lemma sellHandler_task token s :
  if fullSellBranch s newBalances token
  then exists k, (sellHandler token s).2
                 = AwaitSwap (executeSwapSell token solMint 100) k
  else (sellHandler token s).2 = Done.
Proof.
  unfold Tracker.sellHandler.
  destruct (fullSellBranch s newBalances token); simpl; eauto.
Qed.

Local Ltac shape :=
  repeat first
    [ progress simpl
    | progress intros
    | match goal with |- context [if ?b then _ else _] => destruct b end
    | apply swapFree_done
    | apply swapFree_notify
    | apply within_done
    | apply within_swap
    | apply within_notify ].

Lemma tradeHandler_oneSwap token s : oneSwap (tradeHandler token s).2.
Proof.
  unfold Tracker.tradeHandler.
  destruct (tradeBranch s _ _ token) as [[| |]|]; simpl.
  - apply oneSwap_now. shape.
  - apply oneSwap_free. shape.
  - destruct (Js.gt _ 0); simpl.
    + apply oneSwap_now. shape.
    + apply oneSwap_free. shape.
  - apply oneSwap_free. shape.
Qed.

Lemma sellHandler_oneSwap token s : oneSwap (sellHandler token s).2.
Proof.
  unfold Tracker.sellHandler.
  destruct (fullSellBranch s newBalances token); simpl.
  - apply oneSwap_now. shape.
  - apply oneSwap_free. shape.
Qed.

Lemma tradeHandler_awaitsWithin token s : awaitsWithin passFuel (tradeHandler token s).2.
Proof.
  unfold Tracker.tradeHandler, passFuel.
  destruct (tradeBranch s _ _ token) as [[| |]|]; shape.
Qed.

Lemma sellHandler_awaitsWithin token s : awaitsWithin passFuel (sellHandler token s).2.
Proof. unfold Tracker.sellHandler, passFuel. shape. Qed.

Lemma recordMetrics_consistent latency ok s :
  metricsConsistent s -> metricsConsistent (recordMetrics latency ok s).
Proof. apply Metrics_update_successful_le. Qed.

Local Ltac keep :=
  repeat first
    [ progress simpl
    | progress intros
    | assumption
    | match goal with |- context [if ?b then _ else _] => destruct b end
    | apply keeps_done
    | apply keeps_swap
    | apply keeps_notify
    | apply recordMetrics_consistent ].

Lemma tradeHandler_keeps_metrics token s :
  keeps metricsConsistent (tradeHandler token s).2.
Proof.
  unfold Tracker.tradeHandler.
  destruct (tradeBranch s _ _ token) as [[| |]|]; keep.
Qed.

Lemma sellHandler_keeps_metrics token s :
  keeps metricsConsistent (sellHandler token s).2.
Proof. unfold Tracker.sellHandler. keep. Qed.

Lemma tradeHandler_metrics token s : metrics (tradeHandler token s).1 = metrics s.
Proof.
  unfold Tracker.tradeHandler.
  destruct (tradeBranch s _ _ token) as [[| |]|]; simpl; try done.
  by destruct (Js.gt _ 0).
Qed.

Lemma sellHandler_metrics token s : metrics (sellHandler token s).1 = metrics s.
Proof.
  unfold Tracker.sellHandler. by destruct (fullSellBranch s newBalances token).
Qed.

Lemma spawn_metrics handler tokens s :
  (forall token s, metrics (handler token s).1 = metrics s) ->
  metrics (spawn handler tokens s).1 = metrics s.
Proof.
  intros Hh. revert s. induction tokens as [|token rest IH]; intros s; [done |].
  simpl. specialize (Hh token s). destruct (handler token s) as [s1 t].
  specialize (IH s1). destruct (spawn handler rest s1) as [s2 ts].
  simpl in *. congruence.
Qed.

Lemma compareBalances_spawn_metrics s :
  metrics (compareBalances_spawn cfg walletAddress oldBalances newBalances s).1
  = metrics s.
Proof.
  unfold compareBalances_spawn.
  destruct (spawn tradeHandler _ _) as [s1 tradePromises] eqn:Htrade.
  destruct (spawn sellHandler _ s1) as [s2 sellPromises] eqn:Hsell. simpl.
  replace s2 with (spawn sellHandler (Js.keys oldBalances) s1).1 by by rewrite Hsell.
  rewrite spawn_metrics by apply sellHandler_metrics.
  replace s1 with (spawn tradeHandler (Js.keys newBalances) (incr_apiCallCount s)).1
    by by rewrite Htrade.
  by rewrite spawn_metrics by apply tradeHandler_metrics.
Qed.

(** Every promise of a pass has one of the shapes above. *)
Lemma compareBalances_spawn_shapes s :
  let pool := (compareBalances_spawn cfg walletAddress oldBalances newBalances s).2 in
  Forall oneSwap pool
  /\ Forall (awaitsWithin passFuel) pool
  /\ Forall (keeps metricsConsistent) pool.
Proof.
  simpl. rewrite compareBalances_spawn_pool.
  rewrite !Forall_app, !Forall_fmap.
  repeat split; apply Forall_forall; intros token _; simpl;
    auto using tradeHandler_oneSwap, sellHandler_oneSwap,
      tradeHandler_awaitsWithin, sellHandler_awaitsWithin,
      tradeHandler_keeps_metrics, sellHandler_keeps_metrics.
Qed.

End TaskFacts.

(** ** The event loop *)

Section LoopFacts.

Lemma inFlight_elem pool call :
  call ∈ inFlight pool <-> exists k, AwaitSwap call k ∈ pool.
Proof.
  unfold inFlight. rewrite list_elem_of_omap. split.
  - intros (t & Hin & Ht). destruct t as [|call' k|]; try discriminate.
    injection Ht as ->. eauto.
  - intros [k Hin]. by exists (AwaitSwap call k).
Qed.

Lemma elem_of_insert_task (pool : list Task) i t t' :
  t' ∈ <[i := t]> pool -> t' = t \/ t' ∈ pool.
Proof.
  intros Hin. apply list_elem_of_lookup in Hin as [j Hj].
  destruct (decide (i = j)) as [->|Hne].
  - destruct (decide (j < length pool)%nat) as [Hlt|Hge].
    + rewrite list_lookup_insert_eq in Hj by done. left. congruence.
    + rewrite list_insert_ge in Hj by lia. right.
      apply list_elem_of_lookup. eauto.
  - rewrite list_lookup_insert_ne in Hj by done. right.
    apply list_elem_of_lookup. eauto.
Qed.

Lemma Forall_insert_task (P : Task -> Prop) (pool : list Task) i t :
  Forall P pool -> P t -> Forall P (<[i := t]> pool).
Proof.
  rewrite !Forall_forall. intros Hall Ht t' Hin.
  apply elem_of_insert_task in Hin as [->|Hin]; auto.
Qed.

(** A resumption dispatches nothing: the swap calls in flight only go away,
    and a swap that settles was in flight. *)
Lemma step_inFlight s pool e s' pool' :
  Forall oneSwap pool -> step (s, pool) e (s', pool') ->
  Forall oneSwap pool'
  /\ (forall call, call ∈ inFlight pool' -> call ∈ inFlight pool)
  /\ (forall call result latency,
        e = Swapped call result latency -> call ∈ inFlight pool).
Proof.
  intros Hall Hstep.
  inversion Hstep as [? ? i call k result latency ? t' Hi Hk
                     |? ? i n k ? t' Hi Hk]; subst.
  - assert (Hin : AwaitSwap call k ∈ pool) by (apply list_elem_of_lookup; eauto).
    assert (Hfree : swapFree t').
    { rewrite Forall_forall in Hall. specialize (Hall _ Hin).
      inversion Hall as [? Hf|? ? Hk']; subst.
      - inversion Hf.
      - specialize (Hk' result latency s). by rewrite Hk in Hk'. }
    split; [apply Forall_insert_task; [done | by apply oneSwap_free] |].
    split.
    + intros call' Hc. apply inFlight_elem in Hc as [k' Hc].
      apply elem_of_insert_task in Hc as [Heq|Hc];
        [rewrite <- Heq in Hfree; inversion Hfree |].
      apply inFlight_elem. eauto.
    + intros ? ? ? [= -> -> ->]. apply inFlight_elem. eauto.
  - assert (Hin : AwaitNotify n k ∈ pool) by (apply list_elem_of_lookup; eauto).
    assert (Hfree : swapFree t').
    { rewrite Forall_forall in Hall. specialize (Hall _ Hin).
      inversion Hall as [? Hf|]; subst.
      inversion Hf as [|? ? Hk']; subst.
      specialize (Hk' s). by rewrite Hk in Hk'. }
    split; [apply Forall_insert_task; [done | by apply oneSwap_free] |].
    split; [| discriminate].
    intros call' Hc. apply inFlight_elem in Hc as [k' Hc].
    apply elem_of_insert_task in Hc as [Heq|Hc];
      [rewrite <- Heq in Hfree; inversion Hfree |].
    apply inFlight_elem. eauto.
Qed.

(** Every swap that settles during a pass was dispatched by the synchronous
    part of the pass. *)
Lemma steps_swapped_inFlight c es c' :
  steps c es c' -> Forall oneSwap c.2 ->
  forall call result latency,
    Swapped call result latency ∈ es -> call ∈ inFlight c.2.
Proof.
  induction 1 as [c|[s pool] e [s' pool'] es c'' Hstep Hsteps IH];
    intros Hall call result latency Hin.
  - by apply not_elem_of_nil in Hin.
  - destruct (step_inFlight _ _ _ _ _ Hall Hstep) as (Hall' & Hsub & Hnow).
    apply elem_of_cons in Hin as [Heq|Hin]; [by eapply Hnow |].
    apply Hsub. by eapply IH.
Qed.

Lemma step_keeps (P : TrackerState -> Prop) s pool e s' pool' :
  P s -> Forall (keeps P) pool -> step (s, pool) e (s', pool') ->
  P s' /\ Forall (keeps P) pool'.
Proof.
  intros HP Hall Hstep.
  inversion Hstep as [? ? i call k result latency ? t' Hi Hk
                     |? ? i n k ? t' Hi Hk]; subst.
  - assert (Hin : AwaitSwap call k ∈ pool) by (apply list_elem_of_lookup; eauto).
    rewrite Forall_forall in Hall. specialize (Hall _ Hin) as Hkeeps.
    inversion Hkeeps as [|? ? Hstate Htask|]; subst.
    specialize (Hstate result latency s HP). specialize (Htask result latency s).
    rewrite Hk in Hstate, Htask. split; [done |].
    apply Forall_insert_task; [by apply Forall_forall | done].
  - assert (Hin : AwaitNotify n k ∈ pool) by (apply list_elem_of_lookup; eauto).
    rewrite Forall_forall in Hall. specialize (Hall _ Hin) as Hkeeps.
    inversion Hkeeps as [| |? ? Hstate Htask]; subst.
    specialize (Hstate s HP). specialize (Htask s).
    rewrite Hk in Hstate, Htask. split; [done |].
    apply Forall_insert_task; [by apply Forall_forall | done].
Qed.

Lemma steps_keeps (P : TrackerState -> Prop) c es c' :
  steps c es c' -> P c.1 -> Forall (keeps P) c.2 -> P c'.1.
Proof.
  induction 1 as [c|[s pool] e [s' pool'] es c'' Hstep Hsteps IH];
    intros HP Hall; [done |].
  destruct (step_keeps P _ _ _ _ _ HP Hall Hstep). by apply IH.
Qed.

(** A callback that awaits at most [fuel] times settles. *)
Lemma settle_total exec fuel t :
  awaitsWithin fuel t -> forall s, is_Some (settle exec fuel t s).
Proof.
  induction 1 as [n|n call k Hk IH|n m k Hk IH]; intros s.
  - destruct n; simpl; eauto.
  - simpl. destruct (exec call) as [result latency].
    specialize (IH result latency s).
    destruct (k result latency s) as [s1 t1]. simpl in IH.
    destruct (IH s1) as [[s2 es] ->]. eauto.
  - simpl. specialize (IH s). destruct (k s) as [s1 t1]. simpl in IH.
    destruct (IH s1) as [[s2 es] ->]. eauto.
Qed.

Lemma settleAll_total exec fuel pool :
  Forall (awaitsWithin fuel) pool -> forall s, is_Some (settleAll exec fuel pool s).
Proof.
  induction 1 as [|t pool Ht Hpool IH]; intros s; simpl; [eauto |].
  destruct (settle_total exec fuel t Ht s) as [[s1 es] ->].
  destruct (IH s1) as [[s2 es'] ->]. eauto.
Qed.

(** The pass always runs to its end. *)
Lemma compareBalances_total cfg exec walletAddress oldBalances newBalances s :
  is_Some (compareBalances cfg exec passFuel walletAddress oldBalances newBalances s).
Proof.
  unfold compareBalances.
  destruct (compareBalances_spawn_shapes cfg walletAddress oldBalances newBalances s)
    as (_ & Hwithin & _).
  destruct (compareBalances_spawn _ _ _ _ s) as [s1 pool]. simpl in Hwithin.
  destruct (settleAll_total exec passFuel pool Hwithin s1) as [[s2 es] ->]. eauto.
Qed.

Lemma steps_app c es c' es' c'' :
  steps c es c' -> steps c' es' c'' -> steps c (es ++ es') c''.
Proof.
  induction 1 as [c|c e c1 es c2 Hstep Hsteps IH]; intros Hrest; [done |].
  simpl. eapply steps_cons; [done |]. by apply IH.
Qed.

Lemma insert_middle_task (before after : list Task) t t' :
  <[length before := t']> (before ++ t :: after) = before ++ t' :: after.
Proof.
  replace (length before) with (length before + 0)%nat by lia.
  by rewrite insert_app_r.
Qed.

(** The schedule of [settle] is one of the runs of the event loop. *)
Lemma settle_steps exec fuel :
  forall t s s' es, settle exec fuel t s = Some (s', es) ->
  forall before after,
    steps (s, before ++ t :: after) es (s', before ++ Done :: after).
Proof.
  induction fuel as [|fuel IH]; intros t s s' es Hrun before after.
  - destruct t; simpl in Hrun; [| discriminate..].
    injection Hrun as <- <-. apply steps_nil.
  - destruct t as [|call k|n k]; simpl in Hrun.
    + injection Hrun as <- <-. apply steps_nil.
    + destruct (exec call) as [result latency].
      destruct (k result latency s) as [s1 t1] eqn:Hk.
      destruct (settle exec fuel t1 s1) as [[s2 es1]|] eqn:Hrest; [| discriminate].
      injection Hrun as <- <-.
      eapply steps_cons;
        [eapply step_swap; [by apply list_lookup_middle | done] |].
      rewrite insert_middle_task. by apply IH.
    + destruct (k s) as [s1 t1] eqn:Hk.
      destruct (settle exec fuel t1 s1) as [[s2 es1]|] eqn:Hrest; [| discriminate].
      injection Hrun as <- <-.
      eapply steps_cons;
        [eapply step_notify; [by apply list_lookup_middle | done] |].
      rewrite insert_middle_task. by apply IH.
Qed.

Lemma settleAll_steps exec fuel pool :
  forall s s' es, settleAll exec fuel pool s = Some (s', es) ->
  forall before,
    steps (s, before ++ pool) es (s', before ++ (const Done <$> pool)).
Proof.
  induction pool as [|t pool IH]; intros s s' es Hrun before; simpl in Hrun.
  - injection Hrun as <- <-. apply steps_nil.
  - destruct (settle exec fuel t s) as [[s1 es1]|] eqn:Hfirst; [| discriminate].
    destruct (settleAll exec fuel pool s1) as [[s2 es2]|] eqn:Hrest; [| discriminate].
    injection Hrun as <- <-.
    eapply steps_app; [by eapply settle_steps |].
    specialize (IH _ _ _ Hrest (before ++ [Done])).
    by rewrite <- !app_assoc in IH.
Qed.

(** So what holds of every run holds of [compareBalances]: it keeps the
    metrics consistent. *)
Lemma compareBalances_metricsConsistent cfg exec walletAddress
    (oldBalances newBalances : gmap string Q) s s' es :
  compareBalances cfg exec passFuel walletAddress oldBalances newBalances s
    = Some (s', es) ->
  metricsConsistent s -> metricsConsistent s'.
Proof.
  unfold compareBalances. intros Hrun Hs.
  destruct (compareBalances_spawn_shapes cfg walletAddress oldBalances newBalances s)
    as (_ & _ & Hkeeps).
  pose proof (compareBalances_spawn_metrics cfg walletAddress oldBalances
                newBalances s) as Hmetrics.
  destruct (compareBalances_spawn _ _ _ _ s) as [s1 pool]. simpl in *.
  destruct (settleAll exec passFuel pool s1) as [[s2 es2]|] eqn:Hall; [| discriminate].
  injection Hrun as <- <-.
  pose proof (settleAll_steps _ _ _ _ _ _ Hall []) as Hsteps.
  apply (steps_keeps metricsConsistent) in Hsteps; [done | | done].
  unfold metricsConsistent. simpl. by rewrite Hmetrics.
Qed.

(** The promises of a pass are those of its callbacks, and only those. *)
Lemma pool_elem cfg walletAddress (oldBalances newBalances : gmap string Q) s t :
  t ∈ (compareBalances_spawn cfg walletAddress oldBalances newBalances s).2
  <-> (exists token, is_Some (newBalances !! token)
         /\ t = (tradeHandler cfg walletAddress oldBalances newBalances token s).2)
      \/ (exists token, is_Some (oldBalances !! token)
         /\ t = (sellHandler cfg newBalances token s).2).
Proof.
  rewrite compareBalances_spawn_pool, elem_of_app, !list_elem_of_fmap.
  split.
  - intros [(token & -> & Hin)|(token & -> & Hin)]; [left | right];
      exists token; by rewrite <- Js_elem_of_keys.
  - intros [(token & Hin & ->)|(token & Hin & ->)]; [left | right];
      exists token; by rewrite Js_elem_of_keys.
Qed.

End LoopFacts.

(** * The claims *)

(** C1 (the code departs from the claim): when a token's new balance is
    positive but at most the dust threshold 0.001 while its old balance is
    above it, and the bot holds the token, one pass dispatches both the
    proportional sell of the decrease branch and the 100% sell of the full-sell
    branch for that token. *)
Theorem dust_decrease_sells_twice cfg walletAddress
    (oldBalances newBalances : gmap string Q) s token o n :
  oldBalances !! token = Some o ->
  newBalances !! token = Some n ->
  0 < n -> n <= 1 # 1000 -> 1 # 1000 < o ->
  0 < Js.getOr0 (botBalances s) token ->
  let pool := (compareBalances_spawn cfg walletAddress oldBalances newBalances s).2 in
  executeSwapSell token solMint ((o - n) / o * 100) ∈ inFlight pool
  /\ executeSwapSell token solMint 100 ∈ inFlight pool.
Proof.
  intros Hold Hnew Hn Hdust Ho Hheld. simpl.
  split; apply inFlight_elem.
  - pose proof (tradeHandler_task cfg walletAddress oldBalances newBalances token s)
      as Htask. simpl in Htask.
    rewrite (Js_getOr0_Some _ _ _ Hold), (Js_getOr0_Some _ _ _ Hnew) in Htask.
    assert (Hbranch : tradeBranch s o n token = Some DecreaseInStake)
      by (apply tradeBranch_decrease_iff; split; lra).
    rewrite Hbranch in Htask.
    apply Js_gt_true in Hheld. rewrite Hheld in Htask.
    destruct Htask as [k Hk]. exists k.
    apply pool_elem. left. exists token. by rewrite Hnew.
  - pose proof (sellHandler_task cfg newBalances token s) as Htask.
    assert (Hbranch : fullSellBranch s newBalances token = true).
    { apply fullSellBranch_iff. split; [right | done].
      by rewrite (Js_getOr0_Some _ _ _ Hnew). }
    rewrite Hbranch in Htask. destruct Htask as [k Hk]. exists k.
    apply pool_elem. right. exists token. by rewrite Hold.
Qed.

Lemma dust_decrease_sells_twice_witness :
  let pool :=
    (compareBalances_spawn sampleConfig "WALLET"
       {[ TKN := 1 ]} {[ TKN := 1 # 2000 ]} (holding 5 1)).2 in
  executeSwapSell TKN solMint ((1 - (1 # 2000)) / 1 * 100) ∈ inFlight pool
  /\ executeSwapSell TKN solMint 100 ∈ inFlight pool.
Proof.
  apply (dust_decrease_sells_twice sampleConfig "WALLET"
           {[ TKN := 1 ]} {[ TKN := 1 # 2000 ]} (holding 5 1) TKN 1 (1 # 2000)).
  - vm_compute; reflexivity.
  - vm_compute; reflexivity.
  - vm_compute; reflexivity.
  - vm_compute; discriminate.
  - vm_compute; reflexivity.
  - vm_compute; reflexivity.
Defined.

(** The full-sell guard does not read the old balance: a balance that rises
    within the dust range is logged as an increase and sold in full. *)
Lemma dust_increase_is_sold_in_full :
  passLog sampleConfig "WALLET" {[ TKN := 2 # 10000 ]} {[ TKN := 5 # 10000 ]}
    (holding 5 (2 # 10000))
  = [BalanceIncreased TKN ((5 # 10000) - (2 # 10000)); FullSell TKN 5].
Proof. vm_compute; reflexivity. Qed.

(** A drop from 50 to 30 is mirrored as a sell of 40 percent. *)
Lemma decrease_50_to_30_is_40_percent :
  exists percent,
    inFlight (compareBalances_spawn sampleConfig "WALLET"
                {[ TKN := 50 ]} {[ TKN := 30 ]} (holding 10 50)).2
    = [executeSwapSell TKN solMint percent]
    /\ percent == 40.
Proof. eexists. split; vm_compute; reflexivity. Qed.

(** C3 (the code departs from the claim): the decrease branch is taken exactly
    when the new balance is below the old one and above 0, not above the dust
    threshold; a drop from 1 to 0.0005 is classified as a partial decrease. *)
Theorem partial_decrease_threshold_is_zero :
  (forall s o n token,
     tradeBranch s o n token = Some DecreaseInStake <-> 0 < n /\ n < o)
  /\ tradeBranch initialState 1 (1 # 2000) TKN = Some DecreaseInStake
  /\ passLog sampleConfig "WALLET" {[ TKN := 1 ]} {[ TKN := 1 # 2000 ]} initialState
     = [BalanceDecreased TKN (1 - (1 # 2000)) ((1 - (1 # 2000)) / 1 * 100)].
Proof.
  split; [apply tradeBranch_decrease_iff |].
  split; vm_compute; reflexivity.
Qed.

(** A token whose ledger entry exists, be it 0, is never bought as a new
    position: a rise of its balance takes the increase branch. *)
Lemma ledger_entry_never_initialBuy s o n token :
  is_Some (botBalances s !! token) ->
  tradeBranch s o n token <> Some InitialBuy
  /\ (o < n -> tradeBranch s o n token = Some IncreaseInStake).
Proof.
  intros [v Hv]. split.
  - intros Hbuy. apply tradeBranch_initialBuy_iff in Hbuy as (_ & Hnone & _).
    congruence.
  - intros Hlt. apply tradeBranch_increase_iff. eauto.
Qed.

(** When every balance kept in [previousBalances] is positive, as the
    snapshots are, and the old snapshot of the pass is [previousBalances], as
    in the log subscription, the initial buy is taken exactly when the old
    balance is 0, the new one is positive and the ledger has no entry for the
    token; an entry holding 0 is not enough. *)
Lemma initialBuy_iff_unseen s n token :
  (forall v, previousBalances s !! token = Some v -> 0 < v) ->
  tradeBranch s (Js.getOr0 (previousBalances s) token) n token = Some InitialBuy
  <-> Js.getOr0 (previousBalances s) token == 0 /\ 0 < n
      /\ botBalances s !! token = None.
Proof.
  intros Hpos. rewrite tradeBranch_initialBuy_iff. unfold Js.getOr0. split.
  - intros (Hlt & Hbot & Hprev). rewrite Hprev in *. simpl in *. by repeat split.
  - intros (Hzero & Hn & Hbot).
    destruct (previousBalances s !! token) as [v|] eqn:Hprev; simpl in *.
    + specialize (Hpos v eq_refl). rewrite Hzero in Hpos.
      by apply Qlt_irrefl in Hpos.
    + by repeat split.
Qed.

(** C2 (the code departs from the claim): a successful full exit leaves the
    ledger entry of the token at 0 instead of removing it, so when the token
    reappears with old balance 0 and a positive new balance, the pass takes
    the increase branch: it sends the alert and dispatches no buy. *)
Theorem reappearance_after_full_exit_is_not_bought :
  exists s1 es1 s2 es2,
    onLogs sampleConfig Js.parseDecimal succeeds (logsOf "exit") 1000
      (Resolved []) (holding 5 30) = Some (s1, es1)
    /\ filter isSwapped es1 = [Swapped (executeSwapSell TKN solMint 100) filled 12]
    /\ botBalances s1 !! TKN = Some 0
    /\ previousBalances s1 !! TKN = None
    /\ tradeBranch s1 0 50 TKN = Some IncreaseInStake
    /\ onLogs sampleConfig Js.parseDecimal succeeds (logsOf "reentry") 2000
         (Resolved [Parsed TKN "50"]) s1 = Some (s2, es2)
    /\ es2 = [Notified
                (sendWalletNotification INCREASE_ALERT "WALLET" TKN
                   (WalletIncrease 50 100) 0 None (Some "reentry"%string) Jupiter)]
    /\ botBalances s2 !! TKN = Some 0.
Proof.
  eexists _, _, _, _.
  split; [vm_compute; reflexivity |].
  repeat (split; [vm_compute; reflexivity |]).
  vm_compute; reflexivity.
Qed.

(** C4, as the code has it: in the tracker that keeps the bot ledger, a token
    whose balance rises without being an initial buy gets the increase alert
    and nothing else from its callback, and however the promises of the pass
    are resumed, no buy of that token ever settles.  (The polling tracker of
    [src/tracker.ts] is another matter: it buys on every increase.) *)
Theorem increase_is_alert_only cfg walletAddress
    (oldBalances newBalances : gmap string Q) s token n :
  newBalances !! token = Some n ->
  Js.getOr0 oldBalances token < n ->
  is_Some (botBalances s !! token) \/ is_Some (previousBalances s !! token) ->
  let spawned := compareBalances_spawn cfg walletAddress oldBalances newBalances s in
  (exists details signature,
     let alert := sendWalletNotification INCREASE_ALERT walletAddress token
                    details 0 None signature Jupiter in
     (tradeHandler cfg walletAddress oldBalances newBalances token s).2
       = AwaitNotify alert (fun s => (s, Done))
     /\ alert ∈ notifying spawned.2)
  /\ (forall es c', steps spawned es c' ->
      forall inputMint amount result latency,
        Swapped (executeSwapBuy inputMint token amount) result latency ∉ es).
Proof.
  intros Hnew Hlt Hknown. simpl.
  assert (Hbranch : tradeBranch s (Js.getOr0 oldBalances token)
                      (Js.getOr0 newBalances token) token = Some IncreaseInStake).
  { apply tradeBranch_increase_iff.
    by rewrite (Js_getOr0_Some _ _ _ Hnew). }
  split.
  - pose proof (tradeHandler_task cfg walletAddress oldBalances newBalances token s)
      as Htask. simpl in Htask. rewrite Hbranch in Htask.
    destruct Htask as (details & signature & Htask).
    exists details, signature. simpl. split; [done |].
    unfold notifying. apply list_elem_of_omap.
    exists (tradeHandler cfg walletAddress oldBalances newBalances token s).2.
    split; [| by rewrite Htask].
    apply pool_elem. left. exists token. by rewrite Hnew.
  - intros es c' Hsteps inputMint amount result latency Hin.
    eapply steps_swapped_inFlight in Hin; [| done |].
    2: { apply compareBalances_spawn_shapes. }
    apply inFlight_elem in Hin as [k Hin].
    apply pool_elem in Hin as [(token' & _ & Hk)|(token' & _ & Hk)].
    + pose proof (tradeHandler_task cfg walletAddress oldBalances newBalances token' s)
        as Htask. simpl in Htask. rewrite <- Hk in Htask.
      destruct (tradeBranch s _ _ token') as [[| |]|] eqn:Hbranch'.
      * destruct Htask as [k' Heq]. injection Heq as _ Htoken _ _.
        subst token'. congruence.
      * by destruct Htask as (? & ? & ?).
      * destruct (Js.gt _ 0); [by destruct Htask as [? ?] | done].
      * done.
    + pose proof (sellHandler_task cfg newBalances token' s) as Htask.
      rewrite <- Hk in Htask.
      destruct (fullSellBranch s newBalances token'); [| done].
      by destruct Htask as [? ?].
Qed.

Lemma increase_is_alert_only_witness :
  let spawned :=
    compareBalances_spawn sampleConfig "WALLET" {[ TKN := 30 ]} {[ TKN := 50 ]}
      (holding 7 30) in
  (exists details signature,
     let alert := sendWalletNotification INCREASE_ALERT "WALLET" TKN
                    details 0 None signature Jupiter in
     (tradeHandler sampleConfig "WALLET" {[ TKN := 30 ]} {[ TKN := 50 ]} TKN
        (holding 7 30)).2 = AwaitNotify alert (fun s => (s, Done))
     /\ alert ∈ notifying spawned.2)
  /\ (forall es c', steps spawned es c' ->
      forall inputMint amount result latency,
        Swapped (executeSwapBuy inputMint TKN amount) result latency ∉ es).
Proof.
  apply (increase_is_alert_only sampleConfig "WALLET"
           {[ TKN := 30 ]} {[ TKN := 50 ]} (holding 7 30) TKN 50).
  - vm_compute; reflexivity.
  - vm_compute; reflexivity.
  - left. exists 7. vm_compute; reflexivity.
Defined.

(** C4, as stated, fails on the polling tracker: once the first scan is over,
    a balance that rises from 10 to 20 makes it buy a quarter of the trade
    amount. *)
Lemma polling_tracker_buys_on_increase :
  Legacy.compareBalances 1000000 false "WALLET"
    {[ TKN := Some 10 ]} {[ TKN := Some 20 ]}
  = [ Legacy.Swap (executeSwapBuy solMint TKN (1000000 * (25 # 100)));
      Legacy.sendTelegramMessage "INCREASE" "WALLET" TKN (Some 20) ].
Proof. vm_compute; reflexivity. Qed.

(** C5: when the 100% sell of a token settles with success, its ledger entry
    is 0; when the proportional sell at percent [P] settles with success, the
    entry is [H - H * P / 100], [H] being the holding read when the sell was
    dispatched.  Both hold whatever else was resumed in between. *)
Theorem successful_sell_updates_ledger cfg walletAddress
    (oldBalances newBalances : gmap string Q) s token result latency s' :
  success result = true ->
  let o := Js.getOr0 oldBalances token in
  let n := Js.getOr0 newBalances token in
  let H := Js.getOr0 (botBalances s) token in
  let P := (o - n) / o * 100 in
  let fullSell := (sellHandler cfg newBalances token s).2 in
  let partialSell := (tradeHandler cfg walletAddress oldBalances newBalances token s).2 in
  (fullSellBranch s newBalances token = true ->
     inFlight [fullSell] = [executeSwapSell token solMint 100]
     /\ botBalances (resume fullSell result latency s').1 !! token = Some 0)
  /\ (tradeBranch s o n token = Some DecreaseInStake -> 0 < H ->
     inFlight [partialSell] = [executeSwapSell token solMint P]
     /\ exists v,
          botBalances (resume partialSell result latency s').1 !! token = Some v
          /\ v == H - H * P / 100).
Proof.
  intros Hok. simpl. split.
  - intros Hbranch. unfold sellHandler. rewrite Hbranch. simpl.
    rewrite Hok. simpl. split; [done |]. apply lookup_insert_eq.
  - intros Hbranch Hheld. unfold tradeHandler. rewrite Hbranch.
    apply Js_gt_true in Hheld. rewrite Hheld. simpl.
    rewrite Hok. simpl. split; [done |].
    eexists. split; [apply lookup_insert_eq |].
    unfold Qdiv. ring.
Qed.

Lemma successful_sell_updates_ledger_witness :
  let fullSell := (sellHandler sampleConfig ∅ TKN (holding 5 30)).2 in
  let partialSell :=
    (tradeHandler sampleConfig "WALLET" {[ TKN := 50 ]} {[ TKN := 30 ]} TKN
       (holding 10 50)).2 in
  let o := Js.getOr0 {[ TKN := 50 ]} TKN in
  let n := Js.getOr0 {[ TKN := 30 ]} TKN in
  let H := Js.getOr0 (botBalances (holding 10 50)) TKN in
  let P := (o - n) / o * 100 in
  (inFlight [fullSell] = [executeSwapSell TKN solMint 100]
   /\ botBalances (resume fullSell filled 12 (holding 5 30)).1 !! TKN = Some 0)
  /\ (inFlight [partialSell] = [executeSwapSell TKN solMint P]
      /\ exists v,
           botBalances (resume partialSell filled 12 (holding 10 50)).1 !! TKN
             = Some v
           /\ v == H - H * P / 100).
Proof.
  pose proof (successful_sell_updates_ledger sampleConfig "WALLET" ∅ ∅
                (holding 5 30) TKN filled 12 (holding 5 30) eq_refl)
    as Hfull.
  pose proof (successful_sell_updates_ledger sampleConfig "WALLET"
                {[ TKN := 50 ]} {[ TKN := 30 ]} (holding 10 50) TKN filled 12
                (holding 10 50) eq_refl)
    as Hpartial.
  cbv zeta in *. destruct Hfull as [Hfull _], Hpartial as [_ Hpartial].
  split.
  - apply Hfull. vm_compute; reflexivity.
  - apply Hpartial; vm_compute; reflexivity.
Defined.

(** The swap failures that the code does record: a failed sell, proportional
    or full, leaves the ledger alone and enters the metrics as a failed
    trade. *)
Lemma failed_sell_is_recorded cfg walletAddress
    (oldBalances newBalances : gmap string Q) s token result latency s' :
  success result = false ->
  let o := Js.getOr0 oldBalances token in
  let n := Js.getOr0 newBalances token in
  let recorded t :=
    botBalances (resume t result latency s').1 = botBalances s'
    /\ metrics (resume t result latency s').1
       = Metrics.updatePerformanceMetrics (tradeCount s') latency false (metrics s') in
  (fullSellBranch s newBalances token = true ->
     recorded (sellHandler cfg newBalances token s).2)
  /\ (tradeBranch s o n token = Some DecreaseInStake ->
      0 < Js.getOr0 (botBalances s) token ->
      recorded (tradeHandler cfg walletAddress oldBalances newBalances token s).2).
Proof.
  intros Hfail. simpl. split.
  - intros Hbranch. unfold sellHandler. rewrite Hbranch. simpl.
    by rewrite Hfail.
  - intros Hbranch Hheld. unfold tradeHandler. rewrite Hbranch.
    apply Js_gt_true in Hheld. rewrite Hheld. simpl. by rewrite Hfail.
Qed.

(** C6 (the code departs from the claim): when the buy of a new position
    settles with [success: false], the callback logs the failure and ends; the
    ledger is unchanged, but so are the metrics: neither [totalTrades] nor the
    latencies record the attempt. *)
Theorem failed_buy_is_not_recorded cfg walletAddress
    (oldBalances newBalances : gmap string Q) s token result latency s' :
  tradeBranch s (Js.getOr0 oldBalances token) (Js.getOr0 newBalances token) token
    = Some InitialBuy ->
  success result = false ->
  let buy := (tradeHandler cfg walletAddress oldBalances newBalances token s).2 in
  inFlight [buy] = [executeSwapBuy solMint token (TRADE_AMOUNT_LAMPORTS cfg)]
  /\ resume buy result latency s' = (log (BuyFailed token) s', Done)
  /\ botBalances (resume buy result latency s').1 = botBalances s'
  /\ metrics (resume buy result latency s').1 = metrics s'.
Proof.
  intros Hbranch Hfail. simpl. unfold tradeHandler. rewrite Hbranch. simpl.
  by rewrite Hfail.
Qed.

Lemma failed_buy_is_not_recorded_witness :
  let buy := (tradeHandler sampleConfig "WALLET" ∅ {[ TKN := 50 ]} TKN initialState).2 in
  inFlight [buy] = [executeSwapBuy solMint TKN (TRADE_AMOUNT_LAMPORTS sampleConfig)]
  /\ resume buy unfilled 12 initialState = (log (BuyFailed TKN) initialState, Done)
  /\ botBalances (resume buy unfilled 12 initialState).1 = botBalances initialState
  /\ metrics (resume buy unfilled 12 initialState).1 = metrics initialState.
Proof.
  apply (failed_buy_is_not_recorded sampleConfig "WALLET" ∅ {[ TKN := 50 ]}
           initialState TKN unfilled 12 initialState).
  - vm_compute; reflexivity.
  - reflexivity.
Defined.

(** However the promises of a pass are resumed, the metrics never count more
    successful trades than trades. *)
Lemma metrics_stay_consistent cfg walletAddress
    (oldBalances newBalances : gmap string Q) s es c' :
  metricsConsistent s ->
  steps (compareBalances_spawn cfg walletAddress oldBalances newBalances s) es c' ->
  metricsConsistent c'.1.
Proof.
  intros Hs Hsteps. eapply steps_keeps; [done | |].
  - unfold metricsConsistent. by rewrite compareBalances_spawn_metrics.
  - apply compareBalances_spawn_shapes.
Qed.

(** C7 (the code departs from the claim): a pass whose only swap is a full
    exit that succeeds dispatches one swap ([tradeCount] goes from 0 to 1)
    and leaves [totalTrades] at 0. *)
Theorem successful_full_exit_is_not_counted :
  exists s es,
    compareBalances sampleConfig succeeds passFuel "WALLET"
      {[ TKN := 30 ]} ∅ (holding 5 30) = Some (s, es)
    /\ filter isSwapped es = [Swapped (executeSwapSell TKN solMint 100) filled 12]
    /\ tradeCount (holding 5 30) = 0%nat
    /\ tradeCount s = 1%nat
    /\ metrics (holding 5 30) = Metrics.resetMetrics
    /\ Metrics.totalTrades (metrics s) = 0%nat.
Proof.
  eexists _, _.
  split; [vm_compute; reflexivity |].
  repeat split; vm_compute; reflexivity.
Qed.

(** ** What the classification depends on *)

Section Replay.

Variable cfg : Config.
Variable walletAddress : string.
Variables oldBalances newBalances : gmap string Q.

Lemma Js_has_dom (m m' : gmap string Q) token :
  dom m = dom m' -> Js.has m token = Js.has m' token.
Proof.
  intros Hdom. unfold Js.has. apply bool_decide_ext.
  by rewrite <- !elem_of_dom, Hdom.
Qed.

Lemma tradeBranch_sameLedger s s' o n token :
  sameLedger s s' -> tradeBranch s o n token = tradeBranch s' o n token.
Proof.
  intros [Hbot Hdom]. unfold tradeBranch.
  by rewrite Hbot, (Js_has_dom _ _ token Hdom).
Qed.

Lemma tradeHandler_logsAlike :
  logsAlike (tradeHandler cfg walletAddress oldBalances newBalances).
Proof.
  intros token s s' Hsame. unfold tradeHandler.
  rewrite (tradeBranch_sameLedger _ _ _ _ _ Hsame).
  destruct Hsame as [Hbot Hdom].
  destruct (tradeBranch s' _ _ token) as [[| |]|]; simpl.
  - split; [by split |]. eauto.
  - split; [| eauto]. split; simpl; [done |]. by rewrite !dom_insert_L, Hdom.
  - unfold Js.getOr0. rewrite Hbot.
    destruct (Js.gt _ 0); simpl; (split; [by split |]); eauto.
  - split; [by split |]. exists []. by rewrite !app_nil_r.
Qed.

Lemma sellHandler_logsAlike : logsAlike (sellHandler cfg newBalances).
Proof.
  intros token s s' Hsame. unfold sellHandler, fullSellBranch, Js.getOr0.
  destruct Hsame as [Hbot Hdom]. rewrite Hbot.
  destruct (_ && _); simpl.
  - split; [by split |]. eauto.
  - split; [by split |]. exists []. by rewrite !app_nil_r.
Qed.

Lemma spawn_logsAlike handler tokens :
  logsAlike handler ->
  forall s s', sameLedger s s' ->
    sameLedger (spawn handler tokens s).1 (spawn handler tokens s').1
    /\ exists lines,
         console (spawn handler tokens s).1 = console s ++ lines
         /\ console (spawn handler tokens s').1 = console s' ++ lines.
Proof.
  intros Hh. induction tokens as [|token rest IH]; intros s s' Hsame; simpl.
  - split; [done |]. exists []. by rewrite !app_nil_r.
  - destruct (Hh token s s' Hsame) as (Hsame1 & l1 & Hl1 & Hl1').
    destruct (handler token s) as [s1 t1], (handler token s') as [s1' t1'].
    simpl in *.
    destruct (IH s1 s1' Hsame1) as (Hsame2 & l2 & Hl2 & Hl2').
    destruct (spawn handler rest s1) as [s2 ts], (spawn handler rest s1') as [s2' ts'].
    simpl in *. split; [done |]. exists (l1 ++ l2).
    by rewrite Hl2, Hl2', Hl1, Hl1', <- !app_assoc.
Qed.

Lemma compareBalances_spawn_logsAlike s s' :
  sameLedger s s' ->
  exists lines,
    console (compareBalances_spawn cfg walletAddress oldBalances newBalances s).1
      = console s ++ lines
    /\ console (compareBalances_spawn cfg walletAddress oldBalances newBalances s').1
      = console s' ++ lines.
Proof.
  intros Hsame. unfold compareBalances_spawn.
  assert (Hsame0 : sameLedger (incr_apiCallCount s) (incr_apiCallCount s'))
    by (destruct Hsame; by split).
  destruct (spawn_logsAlike _ (Js.keys newBalances) tradeHandler_logsAlike
              _ _ Hsame0) as (Hsame1 & l1 & Hl1 & Hl1').
  destruct (spawn (tradeHandler _ _ _ _) _ (incr_apiCallCount s)) as [s1 ts1].
  destruct (spawn (tradeHandler _ _ _ _) _ (incr_apiCallCount s')) as [s1' ts1'].
  simpl in *.
  destruct (spawn_logsAlike _ (Js.keys oldBalances) sellHandler_logsAlike
              _ _ Hsame1) as (_ & l2 & Hl2 & Hl2').
  destruct (spawn (sellHandler _ _) _ s1) as [s2 ts2].
  destruct (spawn (sellHandler _ _) _ s1') as [s2' ts2'].
  simpl in *. exists (l1 ++ l2).
  by rewrite Hl2, Hl2', Hl1, Hl1', <- !app_assoc.
Qed.

End Replay.

(** C8, as the code has it: the branches a pass takes are a function of the
    old and new balances, the bot ledger and the set of tokens in
    [previousBalances] as the pass finds them; two passes over the same pair
    that find these alike log the same branches. *)
Theorem classification_depends_on_ledger cfg walletAddress
    (oldBalances newBalances : gmap string Q) s s' :
  sameLedger s s' ->
  passLog cfg walletAddress oldBalances newBalances s
  = passLog cfg walletAddress oldBalances newBalances s'.
Proof.
  intros Hsame. unfold passLog.
  destruct (compareBalances_spawn_logsAlike cfg walletAddress oldBalances
              newBalances s s' Hsame) as (lines & -> & ->).
  by rewrite !drop_app_length.
Qed.

Lemma classification_depends_on_ledger_witness :
  passLog sampleConfig "WALLET" {[ TKN := 50 ]} {[ TKN := 30 ]} (holding 10 50)
  = passLog sampleConfig "WALLET" {[ TKN := 50 ]} {[ TKN := 30 ]}
      (recordMetrics 12 true (incr_tradeCount (holding 10 49))).
Proof.
  apply (classification_depends_on_ledger sampleConfig "WALLET"
           {[ TKN := 50 ]} {[ TKN := 30 ]} (holding 10 50)
           (recordMetrics 12 true (incr_tradeCount (holding 10 49)))).
  split; [reflexivity |]. simpl. by rewrite !dom_singleton_L.
Defined.

(** C8, as stated, fails: the pass itself rewrites [previousBalances], so a
    second pass over the same pair takes another branch, even when the swap of
    the first pass failed and the ledger is as it was. *)
Lemma replay_classifies_differently :
  exists s1 es1,
    compareBalances sampleConfig fails passFuel "WALLET"
      ∅ {[ TKN := 50 ]} initialState = Some (s1, es1)
    /\ botBalances s1 = botBalances initialState
    /\ passLog sampleConfig "WALLET" ∅ {[ TKN := 50 ]} initialState
       = [BuyDetected TKN 50]
    /\ passLog sampleConfig "WALLET" ∅ {[ TKN := 50 ]} s1
       = [BalanceIncreased TKN (50 - 0)].
Proof.
  eexists _, _.
  split; [vm_compute; reflexivity |].
  repeat split; vm_compute; reflexivity.
Qed.

(** * Further properties *)

(** ** Resumptions *)

Section RunFacts.

Variable R : Event -> TrackerState -> TrackerState -> Prop.

Lemma step_always s pool e s' pool' :
  Forall (always R) pool -> step (s, pool) e (s', pool') ->
  R e s s' /\ Forall (always R) pool'.
Proof.
  intros Hall Hstep.
  inversion Hstep as [? ? i call k result latency ? t' Hi Hk
                     |? ? i n k ? t' Hi Hk]; subst.
  - assert (Hin : AwaitSwap call k ∈ pool) by (apply list_elem_of_lookup; eauto).
    rewrite Forall_forall in Hall. specialize (Hall _ Hin) as Halways.
    inversion Halways as [|? ? Hnow Hlater|]; subst.
    specialize (Hnow result latency s). specialize (Hlater result latency s).
    rewrite Hk in Hnow, Hlater. split; [done |].
    apply Forall_insert_task; [by apply Forall_forall | done].
  - assert (Hin : AwaitNotify n k ∈ pool) by (apply list_elem_of_lookup; eauto).
    rewrite Forall_forall in Hall. specialize (Hall _ Hin) as Halways.
    inversion Halways as [| |? ? Hnow Hlater]; subst.
    specialize (Hnow s). specialize (Hlater s).
    rewrite Hk in Hnow, Hlater. split; [done |].
    apply Forall_insert_task; [by apply Forall_forall | done].
Qed.

Lemma steps_always c es c' :
  steps c es c' -> Forall (always R) c.2 ->
  chain R c.1 es c'.1 /\ Forall (always R) c'.2.
Proof.
  induction 1 as [c|[s pool] e [s1 pool1] es c2 Hstep Hsteps IH]; intros Hall.
  - split; [apply chain_nil | done].
  - destruct (step_always _ _ _ _ _ Hall Hstep) as [Hnow Hall1].
    destruct (IH Hall1) as [Hchain Hall2].
    split; [| done]. by eapply chain_cons.
Qed.

Lemma pool_always cfg walletAddress (oldBalances newBalances : gmap string Q) s :
  (forall token s,
     always R (tradeHandler cfg walletAddress oldBalances newBalances token s).2) ->
  (forall token s, always R (sellHandler cfg newBalances token s).2) ->
  Forall (always R) (compareBalances_spawn cfg walletAddress oldBalances newBalances s).2.
Proof.
  intros Htrade Hsell. apply Forall_forall. intros t Hin.
  apply pool_elem in Hin as [(token & _ & ->)|(token & _ & ->)]; auto.
Qed.

End RunFacts.

Ltac resumptions :=
  repeat first
    [ progress simpl
    | progress intros
    | apply always_done
    | apply always_swap
    | apply always_notify
    | match goal with
      | |- context [if ?b then _ else _] => destruct b eqn:?
      end ].

Section HandlerFacts.

Variable cfg : Config.
Variable walletAddress : string.
Variables oldBalances newBalances : gmap string Q.

Local Abbreviation tradeHandler := (tradeHandler cfg walletAddress oldBalances newBalances).
Local Abbreviation sellHandler := (sellHandler cfg newBalances).

Lemma ledgerMove_same e s s' : botBalances s' = botBalances s -> ledgerMove e s s'.
Proof. intros Heq token Hne. by rewrite Heq in Hne. Qed.

Lemma ledgerMove_insert call result latency s s' v :
  success result = true ->
  botBalances s' = <[swappedToken call := v]> (botBalances s) ->
  ledgerMove (Swapped call result latency) s s'.
Proof.
  intros Hok Heq token Hne. rewrite Heq in Hne.
  destruct (decide (swappedToken call = token)) as [<-|Hother].
  - by exists call, result, latency.
  - by rewrite lookup_insert_ne in Hne.
Qed.

Local Ltac ledger :=
  first
    [ by apply ledgerMove_same
    | eapply ledgerMove_insert;
        [ first [ eassumption
                | match goal with
                  | H : _ && _ = true |- _ =>
                      apply andb_prop in H as [? _]; eassumption
                  end ]
        | reflexivity ] ].

Lemma tradeHandler_ledgerMove token s : always ledgerMove (tradeHandler token s).2.
Proof.
  unfold Tracker.tradeHandler.
  destruct (tradeBranch s _ _ token) as [[| |]|]; resumptions; ledger.
Qed.

Lemma sellHandler_ledgerMove token s : always ledgerMove (sellHandler token s).2.
Proof. unfold Tracker.sellHandler. resumptions; ledger. Qed.

Lemma tradeHandler_bookkeepingKept token s :
  always bookkeepingKept (tradeHandler token s).2.
Proof.
  unfold Tracker.tradeHandler.
  destruct (tradeBranch s _ _ token) as [[| |]|]; resumptions; by repeat split.
Qed.

Lemma sellHandler_bookkeepingKept token s :
  always bookkeepingKept (sellHandler token s).2.
Proof. unfold Tracker.sellHandler. resumptions; by repeat split. Qed.

Lemma recordMetrics_metricsShape latency ok s :
  metricsShape s -> metricsShape (recordMetrics latency ok s).
Proof.
  unfold metricsShape. simpl. intros [Hlen Hcalls].
  rewrite length_app. simpl. split; [lia | done].
Qed.

Local Ltac shape_kept :=
  unfold metricsShapeKept;
  first [ by intros ? | intros ?; apply recordMetrics_metricsShape; assumption ].

Lemma tradeHandler_metricsShapeKept token s :
  always metricsShapeKept (tradeHandler token s).2.
Proof.
  unfold Tracker.tradeHandler.
  destruct (tradeBranch s _ _ token) as [[| |]|]; resumptions; shape_kept.
Qed.

Lemma sellHandler_metricsShapeKept token s :
  always metricsShapeKept (sellHandler token s).2.
Proof. unfold Tracker.sellHandler. resumptions; shape_kept. Qed.




End HandlerFacts.

(** ** What a pass leaves alone *)

Section PassStateFacts.

Variable cfg : Config.
Variable walletAddress : string.
Variables oldBalances newBalances : gmap string Q.

Lemma spawn_preserves {A} (f : TrackerState -> A) handler tokens s :
  (forall token s, f (handler token s).1 = f s) ->
  f (spawn handler tokens s).1 = f s.
Proof.
  intros Hh. revert s. induction tokens as [|token rest IH]; intros s; [done |].
  simpl. specialize (Hh token s). destruct (handler token s) as [s1 t].
  specialize (IH s1). destruct (spawn handler rest s1) as [s2 ts].
  simpl in *. congruence.
Qed.

Lemma compareBalances_spawn_preserves {A} (f : TrackerState -> A) s :
  (forall s, f (incr_apiCallCount s) = f s) ->
  (forall token s,
     f (tradeHandler cfg walletAddress oldBalances newBalances token s).1 = f s) ->
  (forall token s, f (sellHandler cfg newBalances token s).1 = f s) ->
  f (compareBalances_spawn cfg walletAddress oldBalances newBalances s).1 = f s.
Proof.
  intros Hincr Htrade Hsell. unfold compareBalances_spawn.
  destruct (spawn (tradeHandler _ _ _ _) _ _) as [s1 tradePromises] eqn:Htr.
  destruct (spawn (sellHandler _ _) _ s1) as [s2 sellPromises] eqn:Hse. simpl.
  replace s2 with (spawn (sellHandler cfg newBalances) (Js.keys oldBalances) s1).1
    by by rewrite Hse.
  rewrite spawn_preserves by done.
  replace s1 with
    (spawn (tradeHandler cfg walletAddress oldBalances newBalances)
       (Js.keys newBalances) (incr_apiCallCount s)).1 by by rewrite Htr.
  by rewrite spawn_preserves.
Qed.

Local Ltac prefix :=
  intros; unfold tradeHandler, sellHandler;
  repeat match goal with
         | |- context [match ?b with _ => _ end] => destruct b
         end; reflexivity.

Lemma compareBalances_spawn_botBalances s :
  botBalances (compareBalances_spawn cfg walletAddress oldBalances newBalances s).1
  = botBalances s.
Proof. apply compareBalances_spawn_preserves; prefix. Qed.

Lemma compareBalances_spawn_processedSignatures s :
  processedSignatures
    (compareBalances_spawn cfg walletAddress oldBalances newBalances s).1
  = processedSignatures s.
Proof. apply compareBalances_spawn_preserves; prefix. Qed.

Lemma compareBalances_spawn_trackedWalletSignatures s :
  trackedWalletSignatures
    (compareBalances_spawn cfg walletAddress oldBalances newBalances s).1
  = trackedWalletSignatures s.
Proof. apply compareBalances_spawn_preserves; prefix. Qed.

Lemma compareBalances_spawn_lastBalanceCheck s :
  lastBalanceCheck
    (compareBalances_spawn cfg walletAddress oldBalances newBalances s).1
  = lastBalanceCheck s.
Proof. apply compareBalances_spawn_preserves; prefix. Qed.

Lemma compareBalances_spawn_apiCallCount s :
  apiCallCount (compareBalances_spawn cfg walletAddress oldBalances newBalances s).1
  = S (apiCallCount s).
Proof.
  change (S (apiCallCount s)) with (apiCallCount (incr_apiCallCount s)).
  unfold compareBalances_spawn.
  destruct (spawn (tradeHandler _ _ _ _) _ _) as [s1 tradePromises] eqn:Htr.
  destruct (spawn (sellHandler _ _) _ s1) as [s2 sellPromises] eqn:Hse. simpl.
  replace s2 with (spawn (sellHandler cfg newBalances) (Js.keys oldBalances) s1).1
    by by rewrite Hse.
  rewrite spawn_preserves by prefix.
  replace s1 with
    (spawn (tradeHandler cfg walletAddress oldBalances newBalances)
       (Js.keys newBalances) (incr_apiCallCount s)).1 by by rewrite Htr.
  by rewrite spawn_preserves by prefix.
Qed.

Lemma compareBalances_spawn_always R s :
  (forall token s,
     always R (tradeHandler cfg walletAddress oldBalances newBalances token s).2) ->
  (forall token s, always R (sellHandler cfg newBalances token s).2) ->
  forall es c',
    steps (compareBalances_spawn cfg walletAddress oldBalances newBalances s) es c' ->
    chain R (compareBalances_spawn cfg walletAddress oldBalances newBalances s).1
      es c'.1.
Proof.
  intros Htrade Hsell es c' Hsteps.
  eapply steps_always; [done |]. by apply pool_always.
Qed.

End PassStateFacts.

Lemma Q_leibniz_dec (x y : Q) : {x = y} + {x <> y}.
Proof. decide equality; [apply Pos.eq_dec | apply Z.eq_dec]. Qed.


Lemma chain_kept (P : TrackerState -> Prop) R s es s' :
  (forall e s s', R e s s' -> P s -> P s') ->
  chain R s es s' -> P s -> P s'.
Proof. intros HR. induction 1; eauto. Qed.

Lemma chain_ledger s es s' token :
  chain ledgerMove s es s' ->
  (forall call result latency,
     Swapped call result latency ∈ es -> swappedToken call = token ->
     success result = false) ->
  botBalances s' !! token = botBalances s !! token.
Proof.
  induction 1 as [s|s e s1 es s2 Hnow Hchain IH]; intros Hnone; [done |].
  rewrite IH by (intros; eapply Hnone; [by apply list_elem_of_further | done]).
  destruct (botBalances s1 !! token) as [v1|] eqn:H1,
           (botBalances s !! token) as [v|] eqn:H0; try done.
  - destruct (Q_leibniz_dec v1 v) as [->|Hne]; [done |].
    destruct (Hnow token) as (call & result & latency & -> & Hok & ->);
      [congruence |].
    rewrite (Hnone call result latency) in Hok; [done | apply list_elem_of_here | done].
  - destruct (Hnow token) as (call & result & latency & -> & Hok & ->);
      [congruence |].
    rewrite (Hnone call result latency) in Hok; [done | apply list_elem_of_here | done].
  - destruct (Hnow token) as (call & result & latency & -> & Hok & ->);
      [congruence |].
    rewrite (Hnone call result latency) in Hok; [done | apply list_elem_of_here | done].
Qed.

(** Getting a run of the event loop out of [compareBalances]. *)
Lemma compareBalances_steps cfg exec fuel walletAddress
    (oldBalances newBalances : gmap string Q) s s' es :
  compareBalances cfg exec fuel walletAddress oldBalances newBalances s = Some (s', es) ->
  exists c',
    steps (compareBalances_spawn cfg walletAddress oldBalances newBalances s) es c'
    /\ s' = compareBalances_finish newBalances c'.1.
Proof.
  unfold compareBalances.
  destruct (compareBalances_spawn _ _ _ _ s) as [s1 pool].
  destruct (settleAll exec fuel pool s1) as [[s2 es2]|] eqn:Hall; [| discriminate].
  intros [= <- <-]. exists (s2, const Done <$> pool). split; [| done].
  exact (settleAll_steps _ _ _ _ _ _ Hall []).
Qed.

(** ** Rounding *)

Lemma Js_round_bounds x (lo hi : Z) :
  inject_Z lo <= x -> x <= inject_Z hi -> (lo <= Js.round x <= hi)%Z.
Proof.
  intros Hlo Hhi. unfold Js.round. split.
  - rewrite <- (Qfloor_Z lo). apply Qfloor_resp_le. lra.
  - destruct (Z_le_gt_dec (Qfloor (x + (1 # 2))) hi) as [|Hgt]; [done |].
    assert (Hstep : (hi + 1 <= Qfloor (x + (1 # 2)))%Z) by lia.
    rewrite Zle_Qle, inject_Z_plus in Hstep.
    pose proof (Qfloor_le (x + (1 # 2))) as Hfloor.
    assert (inject_Z 1 == 1) by reflexivity. lra.
Qed.

Lemma Js_round_comp x y : x == y -> Js.round x = Js.round y.
Proof. intros Heq. unfold Js.round. by rewrite Heq. Qed.

Lemma calculateApiCallsPerTrade_no_calls totalTrades :
  Metrics.calculateApiCallsPerTrade totalTrades 0 = 0%Z.
Proof.
  unfold Metrics.calculateApiCallsPerTrade.
  destruct (0 <? totalTrades)%nat; [| done].
  rewrite (Js_round_comp _ 0); [done |]. simpl. unfold Qdiv. ring.
Qed.

(** ** Under every schedule *)

Ltac in_events H :=
  repeat (apply elem_of_cons in H as [H|H];
          [first [discriminate | injection H as -> -> -> | injection H as ->] |]);
  try (by apply not_elem_of_nil in H).

(** X1: the ledger entry of a token is the same after a pass as before it unless
    a swap of that token settled with success, however the promises of the
    pass are resumed. *)
Theorem ledger_entry_kept_without_successful_swap cfg walletAddress
    (oldBalances newBalances : gmap string Q) s es c' token :
  steps (compareBalances_spawn cfg walletAddress oldBalances newBalances s) es c' ->
  (forall call result latency,
     Swapped call result latency ∈ es -> swappedToken call = token ->
     success result = false) ->
  botBalances c'.1 !! token = botBalances s !! token.
Proof.
  intros Hsteps Hnone.
  rewrite <- (compareBalances_spawn_botBalances cfg walletAddress oldBalances
                newBalances s).
  eapply chain_ledger; [| done].
  eapply compareBalances_spawn_always; [| | done];
    auto using tradeHandler_ledgerMove, sellHandler_ledgerMove.
Qed.

Lemma ledger_entry_kept_without_successful_swap_witness :
  exists es c',
    steps (compareBalances_spawn sampleConfig "WALLET" {[ TKN := 30 ]} ∅
             (holding 5 30)) es c'
    /\ es = [Swapped (executeSwapSell TKN solMint 100) unfilled 12]
    /\ botBalances c'.1 !! TKN = botBalances (holding 5 30) !! TKN.
Proof.
  destruct (compareBalances sampleConfig fails passFuel "WALLET" {[ TKN := 30 ]} ∅
              (holding 5 30)) as [[s' es]|] eqn:Hrun;
    [| vm_compute in Hrun; discriminate].
  destruct (compareBalances_steps _ _ _ _ _ _ _ _ _ Hrun) as (c' & Hsteps & _).
  vm_compute in Hrun. injection Hrun as _ <-.
  eexists _, c'. split; [exact Hsteps |]. split; [reflexivity |].
  apply (ledger_entry_kept_without_successful_swap _ _ _ _ _ _ _ TKN Hsteps).
  intros call result latency Hin _. in_events Hin. reflexivity.
Defined.



Lemma chain_bookkeeping s es s' e :
  chain bookkeepingKept s es s' -> bookkeepingKept e s s'.
Proof.
  induction 1 as [s|s e' s1 es s2 Hnow Hchain IH]; [by repeat split |].
  destruct Hnow as (? & ? & ? & ? & ?), IH as (? & ? & ? & ? & ?).
  repeat split; congruence.
Qed.

(** X3: the metrics keep one latency per recorded trade, and their
    [apiCallCount] field is never written: whatever a pass does, the
    performance line reports 0 calls and 0 calls per trade, while the module's
    own API counter has gone up. *)
Theorem metrics_never_hold_the_api_calls cfg walletAddress
    (oldBalances newBalances : gmap string Q) s es c' :
  metricsShape s ->
  steps (compareBalances_spawn cfg walletAddress oldBalances newBalances s) es c' ->
  let report := Metrics.logPerformanceMetrics (tradeCount c'.1) (metrics c'.1) in
  metricsShape c'.1
  /\ apiCallCount c'.1 = S (apiCallCount s)
  /\ Metrics.reportCalls report = 0%nat
  /\ Metrics.reportCallsPerTrade report = 0%Z.
Proof.
  intros Hshape Hsteps. simpl.
  assert (Hkept : metricsShape c'.1).
  { eapply (chain_kept metricsShape metricsShapeKept); [by intros ? ? ? H |  |].
    - eapply compareBalances_spawn_always; [| | done];
        auto using tradeHandler_metricsShapeKept, sellHandler_metricsShapeKept.
    - unfold metricsShape. by rewrite compareBalances_spawn_metrics. }
  assert (Hbook : bookkeepingKept (Notified (sendWalletNotification
            BUY "" "" (Tokens 0) 0 None None None))
            (compareBalances_spawn cfg walletAddress oldBalances newBalances s).1
            c'.1).
  { eapply chain_bookkeeping, compareBalances_spawn_always; [| | done];
      auto using tradeHandler_bookkeepingKept, sellHandler_bookkeepingKept. }
  destruct Hbook as (_ & _ & _ & Hcalls & _), Hkept as [Hlen Hzero].
  split; [by split |]. split; [by rewrite Hcalls, compareBalances_spawn_apiCallCount |].
  split; [done |]. rewrite Hzero. apply calculateApiCallsPerTrade_no_calls.
Qed.

Lemma metrics_never_hold_the_api_calls_witness :
  exists es c',
    steps (compareBalances_spawn sampleConfig "WALLET" {[ TKN := 50 ]}
             {[ TKN := 30 ]} (holding 10 50)) es c'
    /\ apiCallCount c'.1 = 1%nat
    /\ Metrics.reportCalls
         (Metrics.logPerformanceMetrics (tradeCount c'.1) (metrics c'.1)) = 0%nat.
Proof.
  destruct (compareBalances sampleConfig succeeds passFuel "WALLET"
              {[ TKN := 50 ]} {[ TKN := 30 ]} (holding 10 50))
    as [[s' es]|] eqn:Hrun; [| vm_compute in Hrun; discriminate].
  destruct (compareBalances_steps _ _ _ _ _ _ _ _ _ Hrun) as (c' & Hsteps & _).
  exists es, c'. split; [exact Hsteps |].
  assert (Hshape : metricsShape (holding 10 50)) by (split; reflexivity).
  destruct (metrics_never_hold_the_api_calls _ _ _ _ _ _ _ Hshape Hsteps)
    as (_ & Hcalls & Hreport & _).
  split; [exact Hcalls | exact Hreport].
Defined.

(** ** The log subscription *)

Lemma foldl_recordSignature_preserves {A} (f : TrackerState -> A) logs
    (newBalances : gmap string Q) entries s :
  (forall m s, f (with_trackedWalletSignatures m s) = f s) ->
  f (foldl (recordSignature logs newBalances) s entries) = f s.
Proof.
  intros Hf. revert s. induction entries as [|[token newBal] rest IH]; intros s;
    [done |].
  simpl. rewrite IH. unfold recordSignature.
  repeat match goal with
         | |- context [if ?b then _ else _] => destruct b
         end; by rewrite ?Hf.
Qed.

Lemma onLogs_enter_processed logs now s :
  logs_signature logs ∈ processedSignatures (onLogs_enter logs now s).1.
Proof.
  unfold onLogs_enter. case_bool_decide as Hseen; simpl; [done |].
  destruct (logs_err logs); simpl; set_solver.
Qed.

Lemma onLogs_already_processed cfg parseFloat exec logs now response s :
  logs_signature logs ∈ processedSignatures s ->
  onLogs cfg parseFloat exec logs now response s = Some (incr_apiCallCount s, []).
Proof.
  intros Hseen. unfold onLogs, onLogs_enter. simpl.
  by rewrite bool_decide_eq_true_2.
Qed.

Lemma settleAll_bookkeeping exec fuel pool s s' es e :
  Forall (always bookkeepingKept) pool ->
  settleAll exec fuel pool s = Some (s', es) ->
  bookkeepingKept e s s'.
Proof.
  intros Hall Hrun.
  pose proof (settleAll_steps _ _ _ _ _ _ Hrun []) as Hsteps.
  apply (steps_always bookkeepingKept) in Hsteps as [Hchain _]; [| done].
  by eapply chain_bookkeeping.
Qed.

Lemma onLogs_processed cfg parseFloat exec logs now response s s' es :
  onLogs cfg parseFloat exec logs now response s = Some (s', es) ->
  logs_signature logs ∈ processedSignatures s'.
Proof.
  unfold onLogs. pose proof (onLogs_enter_processed logs now s) as Hseen.
  destruct (onLogs_enter logs now s) as [s0 fetch]. simpl in Hseen.
  destruct fetch; [| by intros [= <- <-]].
  destruct (getWalletTokenBalances parseFloat _ response s0)
    as [s1 newBalances] eqn:Hfetch.
  assert (Hseen1 : processedSignatures s1 = processedSignatures s0).
  { unfold getWalletTokenBalances in Hfetch.
    destruct (tryFetch parseFloat response); by injection Hfetch as <- <-. }
  unfold onLogs_fetched.
  set (sf := foldl _ _ _).
  assert (Hseenf : processedSignatures sf = processedSignatures s1).
  { unfold sf. by rewrite foldl_recordSignature_preserves. }
  pose proof (compareBalances_spawn_processedSignatures cfg (TRACKED_WALLET cfg)
                (previousBalances sf) newBalances sf) as Hspawn.
  pose proof (pool_always bookkeepingKept cfg (TRACKED_WALLET cfg)
                (previousBalances sf) newBalances sf
                (tradeHandler_bookkeepingKept _ _ _ _)
                (sellHandler_bookkeepingKept _ _)) as Hall.
  destruct (compareBalances_spawn _ _ _ _ sf) as [s2 pool]. simpl in *.
  destruct (settleAll exec passFuel pool _) as [[s3 es3]|] eqn:Hrun; [| discriminate].
  intros [= <- <-]. simpl.
  eapply (settleAll_bookkeeping _ _ _ _ _ _ (Notified
            (sendWalletNotification BUY "" "" (Tokens 0) 0 None None None)))
    in Hrun as (Hkept & _); [| done].
  rewrite Hkept. simpl. by rewrite Hspawn, Hseenf, Hseen1.
Qed.

(** X4: a log notification is acted upon at most once.  Once [onLogs] has
    handled a signature (fetched for it, or dropped it because the transaction
    failed or the debounce interval had not elapsed), a later delivery of the
    same signature fetches nothing, dispatches nothing and changes nothing but
    the API counter. *)
Theorem notification_handled_at_most_once cfg parseFloat exec logs now response
    s s' es now' response' :
  onLogs cfg parseFloat exec logs now response s = Some (s', es) ->
  onLogs cfg parseFloat exec logs now' response' s' = Some (incr_apiCallCount s', []).
Proof.
  intros Hrun. apply onLogs_already_processed. by eapply onLogs_processed.
Qed.

Lemma notification_handled_at_most_once_witness :
  exists s' es,
    onLogs sampleConfig Js.parseDecimal succeeds (logsOf "exit") 1000
      (Resolved []) (holding 5 30) = Some (s', es)
    /\ onLogs sampleConfig Js.parseDecimal succeeds (logsOf "exit") 2000
         (Resolved [Parsed TKN "50"]) s' = Some (incr_apiCallCount s', []).
Proof.
  eexists _, _. split; [vm_compute; reflexivity |].
  eapply (notification_handled_at_most_once sampleConfig Js.parseDecimal succeeds
            (logsOf "exit") 1000 (Resolved []) (holding 5 30) _ _ 2000
            (Resolved [Parsed TKN "50"])).
  vm_compute; reflexivity.
Defined.

Lemma recordSignature_previousBalances logs (newBalances : gmap string Q) s entry :
  previousBalances (recordSignature logs newBalances s entry) = previousBalances s.
Proof.
  destruct entry as [token newBal]. unfold recordSignature.
  repeat match goal with
         | |- context [if ?b then _ else _] => destruct b
         end; reflexivity.
Qed.

Lemma recordSignature_other logs (newBalances : gmap string Q) s token newBal token' :
  token <> token' ->
  trackedWalletSignatures (recordSignature logs newBalances s (token, newBal)) !! token'
  = trackedWalletSignatures s !! token'.
Proof.
  intros Hne. unfold recordSignature.
  repeat match goal with
         | |- context [if ?b then _ else _] => destruct b
         end; simpl; by rewrite ?lookup_insert_ne.
Qed.

(** What the loop does for the entry of one token: it stores the signature
    unless the balance is what it was and above the dust threshold. *)
Lemma recordSignature_own logs (newBalances : gmap string Q) s token n :
  newBalances !! token = Some n ->
  let o := Js.getOr0 (previousBalances s) token in
  let after := trackedWalletSignatures (recordSignature logs newBalances s (token, n)) in
  (~ n == o \/ n <= 1 # 1000 -> after !! token = Some (logs_signature logs))
  /\ (n == o -> 1 # 1000 < n -> after = trackedWalletSignatures s).
Proof.
  intros Hnew. simpl. unfold recordSignature.
  assert (Hhas : Js.has newBalances token = true) by (apply Js_has_true; eauto).
  rewrite Hhas. simpl.
  destruct (Js.gt n _) eqn:Hgt; simpl.
  { apply Js_gt_true in Hgt. split; [intros _; apply lookup_insert_eq |].
    intros Heq. rewrite Heq in Hgt. by apply Qlt_irrefl in Hgt. }
  apply Js_gt_false in Hgt.
  destruct (Js.lt n _) eqn:Hlt; simpl.
  - apply Js_lt_true in Hlt. destruct (Js.gt n 0) eqn:Hpos; simpl.
    + split; [intros _; apply lookup_insert_eq |].
      intros Heq. rewrite Heq in Hlt. by apply Qlt_irrefl in Hlt.
    + apply Js_gt_false in Hpos.
      assert (Hdust : Js.le n (1 # 1000) = true) by (apply Js_le_true; lra).
      rewrite Hdust. split; [intros _; apply lookup_insert_eq |]. intros _ ?. lra.
  - assert (Heq : n == Js.getOr0 (previousBalances s) token).
    { apply Qle_antisym; [done |]. apply Qnot_lt_le. intros Hlt'.
      apply Js_lt_true in Hlt'. congruence. }
    destruct (Js.le n (1 # 1000)) eqn:Hdust.
    + split; [intros _; apply lookup_insert_eq |].
      apply Js_le_true in Hdust. intros _ ?. lra.
    + apply Js_le_false in Hdust. split; [| done].
      intros [Hne|Hle]; [done | lra].
Qed.

Lemma foldl_recordSignature_absent logs (newBalances : gmap string Q) entries s token :
  token ∉ entries.*1 ->
  trackedWalletSignatures (foldl (recordSignature logs newBalances) s entries) !! token
  = trackedWalletSignatures s !! token.
Proof.
  revert s. induction entries as [|[token' n] rest IH]; intros s Hnotin; [done |].
  rewrite fmap_cons in Hnotin. cbn [foldl fst] in *.
  apply not_elem_of_cons in Hnotin as [Hne Hrest].
  rewrite IH by done. by apply recordSignature_other.
Qed.

Lemma recordSignature_cong logs (newBalances : gmap string Q) s s0 token n :
  previousBalances s = previousBalances s0 ->
  trackedWalletSignatures s !! token = trackedWalletSignatures s0 !! token ->
  trackedWalletSignatures (recordSignature logs newBalances s (token, n)) !! token
  = trackedWalletSignatures (recordSignature logs newBalances s0 (token, n)) !! token.
Proof.
  intros Hprev Hsig. unfold recordSignature. rewrite Hprev.
  repeat match goal with
         | |- context [if ?b then _ else _] => destruct b
         end; simpl; by rewrite ?lookup_insert_eq.
Qed.

Lemma foldl_recordSignature_present logs (newBalances : gmap string Q) entries s0 token n :
  NoDup entries.*1 -> (token, n) ∈ entries ->
  forall s,
    previousBalances s = previousBalances s0 ->
    trackedWalletSignatures s !! token = trackedWalletSignatures s0 !! token ->
    trackedWalletSignatures (foldl (recordSignature logs newBalances) s entries) !! token
    = trackedWalletSignatures (recordSignature logs newBalances s0 (token, n)) !! token.
Proof.
  induction entries as [|[token' n'] rest IH]; intros Hnodup Hin s Hprev Hsig.
  - by apply not_elem_of_nil in Hin.
  - rewrite fmap_cons in Hnodup. cbn [foldl fst] in *.
    apply NoDup_cons in Hnodup as [Hnotin Hnodup].
    apply elem_of_cons in Hin as [[= <- <-]|Hin].
    + rewrite foldl_recordSignature_absent by done.
      by apply recordSignature_cong.
    + assert (Hne : token' <> token).
      { intros ->. apply Hnotin. apply list_elem_of_fmap. by exists (token, n). }
      apply IH; [done | done | |].
      * by rewrite recordSignature_previousBalances.
      * by rewrite recordSignature_other.
Qed.

Lemma onLogs_fetched_signatures cfg logs now (newBalances : gmap string Q) s :
  trackedWalletSignatures (onLogs_fetched cfg logs now newBalances s).1
  = trackedWalletSignatures
      (foldl (recordSignature logs newBalances) (incr_apiCallCount s)
         (map_to_list newBalances)).
Proof.
  unfold onLogs_fetched. set (sf := foldl _ _ _).
  pose proof (compareBalances_spawn_trackedWalletSignatures cfg (TRACKED_WALLET cfg)
                (previousBalances sf) newBalances sf) as Hspawn.
  by destruct (compareBalances_spawn _ _ _ _ sf) as [s2 pool].
Qed.

(** X5: which signature a token is attributed.  When the balances fetched for
    a log notification are compared, a token of the new snapshot gets the
    signature of the notification unless its balance is what it was and above
    the dust threshold; a token that has left the snapshot keeps whatever
    signature it had, so the full exit it triggers is never attributed to the
    transaction that caused it. *)
Theorem signature_attribution cfg logs now (newBalances : gmap string Q) s token :
  let o := Js.getOr0 (previousBalances s) token in
  let after := trackedWalletSignatures (onLogs_fetched cfg logs now newBalances s).1 in
  (newBalances !! token = None ->
     after !! token = trackedWalletSignatures s !! token)
  /\ (forall n, newBalances !! token = Some n ->
        (~ n == o \/ n <= 1 # 1000 -> after !! token = Some (logs_signature logs))
        /\ (n == o -> 1 # 1000 < n ->
            after !! token = trackedWalletSignatures s !! token)).
Proof.
  simpl. rewrite onLogs_fetched_signatures. split.
  - intros Hnone. rewrite foldl_recordSignature_absent; [done |].
    intros Hin. apply (Js_elem_of_keys newBalances) in Hin as [v Hv]. congruence.
  - intros n Hnew.
    rewrite (foldl_recordSignature_present logs newBalances _ s token n);
      [| apply NoDup_fst_map_to_list | by apply elem_of_map_to_list | done | done].
    destruct (recordSignature_own logs newBalances s token n Hnew) as [Hset Hkeep].
    split; [done |]. intros Heq Hbig. by rewrite Hkeep.
Qed.

Lemma signature_attribution_witness :
  trackedWalletSignatures
    (onLogs_fetched sampleConfig (logsOf "exit") 1000 ∅ (holding 5 30)).1 !! TKN
  = trackedWalletSignatures (holding 5 30) !! TKN.
Proof.
  apply (signature_attribution sampleConfig (logsOf "exit") 1000 ∅ (holding 5 30) TKN).
  vm_compute; reflexivity.
Defined.

(** ** What a pass dispatches *)






(** X7: what a pass may dispatch.  A buy is always the fixed trade amount of
    SOL for a token of the new snapshot that neither the ledger nor
    [previousBalances] knows; a sell is always of a token that the bot holds,
    into SOL, at a percentage above 0 and at most 100. *)
Theorem dispatched_swaps_are_bounded cfg walletAddress
    (oldBalances newBalances : gmap string Q) s call :
  call ∈ inFlight (compareBalances_spawn cfg walletAddress oldBalances newBalances s).2 ->
  (exists token,
     call = executeSwapBuy solMint token (TRADE_AMOUNT_LAMPORTS cfg)
     /\ is_Some (newBalances !! token)
     /\ botBalances s !! token = None
     /\ previousBalances s !! token = None)
  \/ (exists token percent,
     call = executeSwapSell token solMint percent
     /\ 0 < percent /\ percent <= 100
     /\ 0 < Js.getOr0 (botBalances s) token).
Proof.
  intros Hin. apply inFlight_elem in Hin as [k Hin].
  apply pool_elem in Hin as [(token & Hnew & Hk)|(token & Hold & Hk)].
  - pose proof (tradeHandler_task cfg walletAddress oldBalances newBalances token s)
      as Htask. simpl in Htask. rewrite <- Hk in Htask.
    destruct (tradeBranch s _ _ token) as [[| |]|] eqn:Hbranch.
    + destruct Htask as [k' [= -> _]]. left. exists token.
      apply tradeBranch_initialBuy_iff in Hbranch as (_ & ? & ?). done.
    + by destruct Htask as (? & ? & ?).
    + destruct (Js.gt _ 0) eqn:Hheld; [| done].
      destruct Htask as [k' [= -> _]]. right. eexists token, _.
      apply tradeBranch_decrease_iff in Hbranch as [Hn Hlt].
      destruct (decreasePercent_bounds _ _ Hn Hlt) as [Hpos Hbelow].
      apply Js_gt_true in Hheld.
      split; [done |]. split; [done |]. split; [lra | done].
    + done.
  - pose proof (sellHandler_task cfg newBalances token s) as Htask.
    rewrite <- Hk in Htask.
    destruct (fullSellBranch s newBalances token) eqn:Hbranch; [| done].
    destruct Htask as [k' [= -> _]]. right. exists token, 100.
    apply fullSellBranch_iff in Hbranch as [_ Hheld].
    split; [done |]. split; [lra |]. split; [lra | done].
Qed.

Lemma dispatched_swaps_are_bounded_witness :
  exists token percent,
    executeSwapSell TKN solMint 100 = executeSwapSell token solMint percent
    /\ 0 < percent /\ percent <= 100
    /\ 0 < Js.getOr0 (botBalances (holding 5 30)) token.
Proof.
  destruct (dispatched_swaps_are_bounded sampleConfig "WALLET" {[ TKN := 30 ]} ∅
              (holding 5 30) (executeSwapSell TKN solMint 100))
    as [(token & Hbuy & _)|Hsell].
  - vm_compute. apply list_elem_of_here.
  - discriminate Hbuy.
  - exact Hsell.
Defined.

(** X8: a failed poll is read as an empty wallet.  When the fetch behind a log
    notification fails, the pass started on its result dispatches a 100% sell
    of every token of [previousBalances] that the bot holds, and nothing
    else. *)
Theorem failed_poll_sells_every_holding cfg parseFloat logs now response s call :
  fetchFails response = true ->
  let fetched := getWalletTokenBalances parseFloat (TRACKED_WALLET cfg) response s in
  call ∈ inFlight (onLogs_fetched cfg logs now fetched.2 fetched.1).2
  <-> exists token,
        is_Some (previousBalances s !! token)
        /\ 0 < Js.getOr0 (botBalances s) token
        /\ call = executeSwapSell token solMint 100.
Proof.
  intros Hfail. simpl.
  assert (Hfetch : exists s1,
            getWalletTokenBalances parseFloat (TRACKED_WALLET cfg) response s = (s1, ∅)
            /\ previousBalances s1 = previousBalances s
            /\ botBalances s1 = botBalances s).
  { unfold getWalletTokenBalances.
    assert (Hthrow : exists e, tryFetch parseFloat response = Throw e).
    { destruct response as [value|e]; simpl in *; [| eauto].
      by apply addAccounts_throws. }
    destruct Hthrow as [e ->]. eauto. }
  destruct Hfetch as (s1 & -> & Hprev & Hbot). simpl.
  unfold onLogs_fetched. rewrite map_to_list_empty. simpl.
  set (sf := incr_apiCallCount s1).
  pose proof (pool_elem cfg (TRACKED_WALLET cfg) (previousBalances sf) ∅ sf) as Hpool.
  destruct (compareBalances_spawn _ _ _ _ sf) as [s2 pool]. simpl in *.
  rewrite inFlight_elem. split.
  - intros [k Hin]. apply Hpool in Hin as [(token & Hnew & _)|(token & Hold & Hk)].
    + rewrite lookup_empty in Hnew. by destruct Hnew.
    + pose proof (sellHandler_task cfg ∅ token sf) as Htask. rewrite <- Hk in Htask.
      destruct (fullSellBranch sf ∅ token) eqn:Hbranch; [| done].
      destruct Htask as [k' [= -> _]].
      apply fullSellBranch_iff in Hbranch as [_ Hheld].
      exists token. simpl in *. by rewrite <- Hprev, <- Hbot.
  - intros (token & Hold & Hheld & ->).
    pose proof (sellHandler_task cfg ∅ token sf) as Htask.
    assert (Hbranch : fullSellBranch sf ∅ token = true).
    { apply fullSellBranch_iff. simpl. rewrite Hbot. split; [by left | done]. }
    rewrite Hbranch in Htask. destruct Htask as [k Hk]. exists k.
    apply Hpool. right. exists token. simpl. by rewrite Hprev.
Qed.

Lemma failed_poll_sells_every_holding_witness :
  executeSwapSell TKN solMint 100
  ∈ inFlight
      (onLogs_fetched sampleConfig (logsOf "lost") 1000
         (getWalletTokenBalances Js.parseDecimal "WALLET" (Rejected "timeout")
            (holding 5 30)).2
         (getWalletTokenBalances Js.parseDecimal "WALLET" (Rejected "timeout")
            (holding 5 30)).1).2.
Proof.
  apply (failed_poll_sells_every_holding sampleConfig Js.parseDecimal
           (logsOf "lost") 1000 (Rejected "timeout") (holding 5 30)
           (executeSwapSell TKN solMint 100)).
  - reflexivity.
  - exists TKN. split; [exists 30; vm_compute; reflexivity |].
    split; [vm_compute; reflexivity | reflexivity].
Defined.

(** ** Counting the trades *)

Section CountFacts.

Variable cfg : Config.
Variable walletAddress : string.
Variables oldBalances newBalances : gmap string Q.
Variable exec : SwapExecutor.

Lemma tradeHandler_records token s0 :
  recordsAtMostItsSwaps exec passFuel
    (tradeHandler cfg walletAddress oldBalances newBalances token s0).2.
Proof.
  unfold recordsAtMostItsSwaps, tradeHandler, passFuel.
  destruct (tradeBranch s0 _ _ token) as [[| |]|]; simpl.
  - intros s s' es. destruct (exec _) as [result latency].
    destruct (success result && Js.truthy (outAmount result)); simpl;
      intros [= <- <-]; simpl; repeat split; lia.
  - intros s s' es [= <- <-]. simpl. repeat split; lia.
  - destruct (Js.gt _ 0); simpl.
    + intros s s' es. destruct (exec _) as [result latency].
      destruct (success result); simpl; intros [= <- <-]; simpl;
        repeat split; lia.
    + intros s s' es [= <- <-]. simpl. repeat split; lia.
  - intros s s' es [= <- <-]. simpl. repeat split; lia.
Qed.

Lemma sellHandler_records token s0 :
  recordsAtMostItsSwaps exec passFuel (sellHandler cfg newBalances token s0).2.
Proof.
  unfold recordsAtMostItsSwaps, sellHandler, passFuel.
  destruct (fullSellBranch s0 newBalances token); simpl.
  - intros s s' es. destruct (exec _) as [result latency].
    destruct (success result); simpl; intros [= <- <-]; simpl; repeat split; lia.
  - intros s s' es [= <- <-]. simpl. repeat split; lia.
Qed.

Lemma inFlight_cons t pool : inFlight (t :: pool) = inFlight [t] ++ inFlight pool.
Proof. unfold inFlight. simpl. by destruct t. Qed.

Lemma settleAll_records pool :
  Forall (recordsAtMostItsSwaps exec passFuel) pool ->
  forall s s' es, settleAll exec passFuel pool s = Some (s', es) ->
    (Metrics.totalTrades (metrics s')
       <= Metrics.totalTrades (metrics s) + length (filter isSwapped es))%nat
    /\ tradeCount s' = tradeCount s
    /\ length (filter isSwapped es) = length (inFlight pool).
Proof.
  induction 1 as [|t pool Ht Hpool IH]; intros s s' es Hrun.
  - injection Hrun as <- <-. simpl. repeat split; lia.
  - cbn [settleAll] in Hrun.
    destruct (settle exec passFuel t s) as [[s1 es1]|] eqn:Hfirst; [| discriminate].
    destruct (settleAll exec passFuel pool s1) as [[s2 es2]|] eqn:Hrest;
      [| discriminate].
    injection Hrun as <- <-.
    destruct (Ht _ _ _ Hfirst) as (Htotal1 & Hcount1 & Hswaps1).
    destruct (IH _ _ _ Hrest) as (Htotal2 & Hcount2 & Hswaps2).
    rewrite filter_app, length_app, inFlight_cons, length_app.
    repeat split; [lia | congruence | lia].
Qed.

Lemma spawn_tradeCount handler tokens :
  (forall token s,
     tradeCount (handler token s).1
     = (tradeCount s + length (inFlight [(handler token s).2]))%nat) ->
  forall s,
    tradeCount (spawn handler tokens s).1
    = (tradeCount s + length (inFlight (spawn handler tokens s).2))%nat.
Proof.
  intros Hh. induction tokens as [|token rest IH]; intros s; simpl; [lia |].
  specialize (Hh token s). destruct (handler token s) as [s1 t].
  specialize (IH s1). destruct (spawn handler rest s1) as [s2 ts].
  cbn [fst snd] in *. rewrite (inFlight_cons t ts), length_app. lia.
Qed.

Lemma compareBalances_spawn_tradeCount s :
  tradeCount (compareBalances_spawn cfg walletAddress oldBalances newBalances s).1
  = (tradeCount s
     + length (inFlight
                 (compareBalances_spawn cfg walletAddress oldBalances newBalances s).2))%nat.
Proof.
  unfold compareBalances_spawn.
  pose proof (spawn_tradeCount (tradeHandler cfg walletAddress oldBalances newBalances)
                (Js.keys newBalances)) as Htrade.
  pose proof (spawn_tradeCount (sellHandler cfg newBalances) (Js.keys oldBalances))
    as Hsell.
  specialize (Htrade ltac:(intros token s0; unfold tradeHandler;
    destruct (tradeBranch s0 _ _ token) as [[| |]|]; simpl; try lia;
    destruct (Js.gt _ 0); simpl; lia) (incr_apiCallCount s)).
  destruct (spawn (tradeHandler _ _ _ _) _ _) as [s1 tradePromises].
  specialize (Hsell ltac:(intros token s0; unfold sellHandler;
    destruct (fullSellBranch s0 newBalances token); simpl; lia) s1).
  destruct (spawn (sellHandler _ _) _ s1) as [s2 sellPromises]. simpl in *.
  unfold inFlight in *. rewrite omap_app, length_app. lia.
Qed.

End CountFacts.

(** X9: the module's own counter is exact, the metrics' is not above it.  Over
    a whole pass [tradeCount] goes up by exactly the number of swaps that
    settled, and [totalTrades] by at most that number. *)
Theorem tradeCount_counts_the_swaps cfg exec walletAddress
    (oldBalances newBalances : gmap string Q) s s' es :
  compareBalances cfg exec passFuel walletAddress oldBalances newBalances s
    = Some (s', es) ->
  tradeCount s' = (tradeCount s + length (filter isSwapped es))%nat
  /\ (Metrics.totalTrades (metrics s')
      <= Metrics.totalTrades (metrics s) + length (filter isSwapped es))%nat.
Proof.
  unfold compareBalances. intros Hrun.
  pose proof (compareBalances_spawn_tradeCount cfg walletAddress oldBalances
                newBalances s) as Hcount.
  pose proof (compareBalances_spawn_metrics cfg walletAddress oldBalances
                newBalances s) as Hmetrics.
  assert (Hall : Forall (recordsAtMostItsSwaps exec passFuel)
            (compareBalances_spawn cfg walletAddress oldBalances newBalances s).2).
  { apply Forall_forall. intros t Hin.
    apply pool_elem in Hin as [(token & _ & ->)|(token & _ & ->)];
      auto using tradeHandler_records, sellHandler_records. }
  destruct (compareBalances_spawn _ _ _ _ s) as [s1 pool]. simpl in *.
  destruct (settleAll exec passFuel pool s1) as [[s2 es2]|] eqn:Hsettle;
    [| discriminate].
  injection Hrun as <- <-.
  destruct (settleAll_records exec pool Hall _ _ _ Hsettle)
    as (Htotal & Hsame & Hswaps).
  simpl. split; [lia |]. by rewrite <- Hmetrics.
Qed.

Lemma tradeCount_counts_the_swaps_witness :
  exists s' es,
    compareBalances sampleConfig succeeds passFuel "WALLET"
      {[ TKN := 30 ]} ∅ (holding 5 30) = Some (s', es)
    /\ tradeCount s'
       = (tradeCount (holding 5 30) + length (filter isSwapped es))%nat
    /\ (Metrics.totalTrades (metrics s')
        <= Metrics.totalTrades (metrics (holding 5 30))
           + length (filter isSwapped es))%nat.
Proof.
  eexists _, _. split; [vm_compute; reflexivity |].
  apply (tradeCount_counts_the_swaps sampleConfig succeeds "WALLET"
           {[ TKN := 30 ]} ∅ (holding 5 30)).
  vm_compute; reflexivity.
Defined.

(** ** The performance line *)

Lemma foldl_add_shift (ls : list Z) (a : Z) :
  foldl Z.add a ls = (a + foldl Z.add 0%Z ls)%Z.
Proof.
  revert a. induction ls as [|l ls IH]; intros a; simpl; [lia |].
  rewrite (IH (a + l)%Z), (IH (0 + l)%Z). lia.
Qed.

Lemma foldl_add_bounds (lo hi : Z) (ls : list Z) :
  Forall (fun l => lo <= l <= hi)%Z ls ->
  (lo * Z.of_nat (length ls) <= foldl Z.add 0%Z ls <= hi * Z.of_nat (length ls))%Z.
Proof.
  induction 1 as [|l ls Hl Hls IH]; simpl foldl; [simpl; lia |].
  rewrite foldl_add_shift. rewrite length_cons, Nat2Z.inj_succ. lia.
Qed.

Lemma Q_ratio_bounds (lo hi total : Z) (n : nat) :
  (0 < n)%nat ->
  (lo * Z.of_nat n <= total <= hi * Z.of_nat n)%Z ->
  inject_Z lo <= inject_Z total / inject_Z (Z.of_nat n)
  /\ inject_Z total / inject_Z (Z.of_nat n) <= inject_Z hi.
Proof.
  intros Hn [Hlo Hhi].
  assert (Hpos : 0 < inject_Z (Z.of_nat n)).
  { replace 0 with (inject_Z 0) by reflexivity. rewrite <- Zlt_Qlt. lia. }
  split.
  - apply Qle_shift_div_l; [done |]. rewrite <- inject_Z_mult, <- Zle_Qle. lia.
  - apply Qle_shift_div_r; [done |]. rewrite <- inject_Z_mult, <- Zle_Qle. lia.
Qed.

(** X10: the average that the performance line prints lies between the smallest
    and the largest recorded latency. *)
Theorem average_latency_is_within_range (lo hi : Z) (latencies : list Z) :
  latencies <> [] ->
  Forall (fun l => lo <= l <= hi)%Z latencies ->
  (lo <= Metrics.calculateAverageTradeLatency latencies <= hi)%Z.
Proof.
  intros Hne Hall. unfold Metrics.calculateAverageTradeLatency.
  destruct latencies as [|l ls]; [done |].
  rewrite bool_decide_eq_false_2 by done.
  destruct (Q_ratio_bounds lo hi (foldl Z.add 0%Z (l :: ls)) (length (l :: ls)))
    as [Hlo Hhi]; [simpl; lia | by apply foldl_add_bounds |].
  by apply Js_round_bounds.
Qed.

Lemma average_latency_is_within_range_witness :
  (10 <= Metrics.calculateAverageTradeLatency [10; 13; 40]%Z <= 40)%Z.
Proof.
  apply (average_latency_is_within_range 10 40 [10; 13; 40]%Z).
  - discriminate.
  - repeat constructor; lia.
Defined.

(** X11: the success rate that the performance line prints after a pass is a
    percentage, from 0 to 100, however the promises of the pass were resumed:
    the metrics never count more successes than trades. *)
Theorem reported_success_rate_is_a_percentage cfg walletAddress
    (oldBalances newBalances : gmap string Q) s es c' :
  metricsConsistent s ->
  steps (compareBalances_spawn cfg walletAddress oldBalances newBalances s) es c' ->
  let report := Metrics.logPerformanceMetrics (tradeCount c'.1) (metrics c'.1) in
  (0 <= Metrics.reportSuccessRate report <= 100)%Z.
Proof.
  intros Hs Hsteps. simpl.
  assert (Hkept : metricsConsistent c'.1).
  { eapply steps_keeps; [done | |].
    - unfold metricsConsistent. by rewrite compareBalances_spawn_metrics.
    - apply compareBalances_spawn_shapes. }
  unfold metricsConsistent in Hkept. unfold Metrics.calculateSuccessRate.
  destruct (0 <? _)%nat eqn:Htotal; [| lia].
  apply Nat.ltb_lt in Htotal.
  destruct (Q_ratio_bounds 0 1 (Z.of_nat (Metrics.successfulTrades (metrics c'.1)))
              (Metrics.totalTrades (metrics c'.1))) as [Hlo Hhi]; [done | lia |].
  apply Js_round_bounds.
  - assert (inject_Z 0 == 0) by reflexivity. nra.
  - assert (inject_Z 1 == 1) by reflexivity.
    assert (inject_Z 100 == 100) by reflexivity. nra.
Qed.

Lemma reported_success_rate_is_a_percentage_witness :
  exists es c',
    steps (compareBalances_spawn sampleConfig "WALLET" {[ TKN := 50 ]}
             {[ TKN := 30 ]} (holding 10 50)) es c'
    /\ (0 <= Metrics.reportSuccessRate
               (Metrics.logPerformanceMetrics (tradeCount c'.1) (metrics c'.1))
          <= 100)%Z.
Proof.
  destruct (compareBalances sampleConfig succeeds passFuel "WALLET"
              {[ TKN := 50 ]} {[ TKN := 30 ]} (holding 10 50))
    as [[s' es]|] eqn:Hrun; [| vm_compute in Hrun; discriminate].
  destruct (compareBalances_steps _ _ _ _ _ _ _ _ _ Hrun) as (c' & Hsteps & _).
  exists es, c'. split; [exact Hsteps |].
  assert (Hs : metricsConsistent (holding 10 50)) by (vm_compute; lia).
  exact (reported_success_rate_is_a_percentage _ _ _ _ _ _ _ Hs Hsteps).
Defined.

(** ** The trader *)

(** X12: what a sell puts on the market.  At a percentage above 0 and at most
    100 (the percentages that the tracker asks for) and with a positive
    balance on chain, [executeSwapSell] either refuses, when the share rounds
    down to nothing, or swaps a whole number of base units that is positive
    and at most the balance; at 100 it swaps the balance itself. *)
Theorem sell_amount_is_within_the_balance
    (executeSwap : string -> string -> option Q -> SwapResult)
    inputMint outputMint percentageToSell (balance : Z) :
  0 < percentageToSell -> percentageToSell <= 100 -> (0 < balance)%Z ->
  let sold := Trader.executeSwapSell executeSwap inputMint outputMint
                percentageToSell (Some balance) in
  (sold = Trader.refused
   /\ Js.floor (inject_Z balance * percentageToSell / 100) = 0%Z)
  \/ (exists amount : Z,
        (0 < amount <= balance)%Z
        /\ (percentageToSell == 100 -> amount = balance)
        /\ sold = executeSwap inputMint outputMint (Some (inject_Z amount))).
Proof.
  intros Hpos Hmax Hbal. simpl. unfold Trader.executeSwapSell, Trader.sellAmount.
  rewrite (proj2 (Z.leb_gt balance 0)) by lia.
  assert (Hgt : Js.gt percentageToSell 0 = true) by by apply Js_gt_true.
  rewrite Hgt, andb_true_r.
  destruct (Js.eq percentageToSell 100) eqn:Hfull.
  - right. exists balance. rewrite (proj2 (Z.eqb_neq balance 0)) by lia.
    split; [lia |]. split; done.
  - assert (Hne : ~ percentageToSell == 100).
    { intros Heq. apply Qeq_bool_iff in Heq. unfold Js.eq in Hfull. congruence. }
    assert (HbalQ : 0 < inject_Z balance).
    { replace 0 with (inject_Z 0) by reflexivity. by rewrite <- Zlt_Qlt. }
    assert (Hshare : 0 <= inject_Z balance * percentageToSell / 100
                     /\ inject_Z balance * percentageToSell / 100 <= inject_Z balance).
    { split.
      - apply Qle_shift_div_l; [lra | nra].
      - apply Qle_shift_div_r; [lra | nra]. }
    destruct Hshare as [Hlo Hhi].
    assert (Hfloor : (0 <= Js.floor (inject_Z balance * percentageToSell / 100)
                      <= balance)%Z).
    { unfold Js.floor. split.
      - exact (Qfloor_resp_le _ _ Hlo).
      - pose proof (Qfloor_resp_le _ _ Hhi) as Hle. by rewrite Qfloor_Z in Hle. }
    destruct (Js.floor _ =? 0)%Z eqn:Hzero.
    + left. split; [done |]. by apply Z.eqb_eq.
    + right. apply Z.eqb_neq in Hzero. eexists. split; [| split; [| done]].
      * lia.
      * intros Heq. by destruct Hne.
Qed.

Lemma sell_amount_is_within_the_balance_witness :
  exists amount : Z,
    (0 < amount <= 2500)%Z
    /\ Trader.executeSwapSell (fun _ _ _ => filled) TKN solMint 40 (Some 2500%Z)
       = (fun _ _ _ => filled) TKN solMint (Some (inject_Z amount)).
Proof.
  destruct (sell_amount_is_within_the_balance (fun _ _ _ => filled) TKN solMint
              40 2500) as [[_ Hzero]|(amount & Hamount & _ & Hsold)].
  - reflexivity.
  - discriminate.
  - reflexivity.
  - vm_compute in Hzero. discriminate Hzero.
  - exists amount. split; [exact Hamount | exact Hsold].
Defined.

(** X13: a sell whose balance lookup fails is refused.  When the token accounts
    of the bot cannot be listed, when there is none, or when the balance of
    the first one cannot be read, [getTokenBalance] answers 0 and
    [executeSwapSell] returns a failure without asking for a quote. *)
Theorem sell_is_refused_when_lookup_fails
    (parseInt : string -> option Z)
    (executeSwap : string -> string -> option Q -> SwapResult)
    inputMint outputMint percentageToSell
    (accounts : Completion (list string)) (balanceOf : string -> Completion string) :
  (forall pubkey rest, accounts = Normal (pubkey :: rest) ->
     exists e, balanceOf pubkey = Throw e) ->
  Trader.executeSwapSell executeSwap inputMint outputMint percentageToSell
    (Trader.getTokenBalance parseInt accounts balanceOf) = Trader.refused.
Proof.
  intros Hfail. unfold Trader.getTokenBalance.
  destruct accounts as [[|pubkey rest]|e]; [done | | done].
  by destruct (Hfail pubkey rest eq_refl) as [e ->].
Qed.

Lemma sell_is_refused_when_lookup_fails_witness :
  Trader.executeSwapSell (fun _ _ _ => filled) TKN solMint 100
    (Trader.getTokenBalance (fun _ => Some 2500%Z) (Normal ["ACC"%string])
       (fun _ => Throw "429")) = Trader.refused.
Proof.
  apply (sell_is_refused_when_lookup_fails (fun _ => Some 2500%Z)
           (fun _ _ _ => filled) TKN solMint 100 (Normal ["ACC"%string])
           (fun _ => Throw "429")).
  intros pubkey rest _. by exists "429"%string.
Defined.

(** ** The polling tracker *)

Section LegacyFacts.

Variable parseFloat : string -> option Q.
Variable TRADE_AMOUNT_LAMPORTS : Q.
Variable walletAddress : string.

Lemma legacy_compareBalances_elem isFirstRun
    (previousBalances latestBalances : gmap string Legacy.number) action :
  action ∈ Legacy.compareBalances TRADE_AMOUNT_LAMPORTS isFirstRun walletAddress
             previousBalances latestBalances
  <-> exists token,
        (is_Some (previousBalances !! token) \/ is_Some (latestBalances !! token))
        /\ action ∈ Legacy.tokenActions TRADE_AMOUNT_LAMPORTS isFirstRun
                      walletAddress previousBalances latestBalances token.
Proof.
  unfold Legacy.compareBalances. rewrite list_elem_of_In, in_concat. split.
  - intros (actions & Hin & Haction). apply in_map_iff in Hin as (token & <- & Hin).
    exists token. split; [| by apply list_elem_of_In].
    apply list_elem_of_In, elem_of_remove_dups, elem_of_app in Hin.
    destruct Hin as [Hin|Hin]; [left | right]; by apply Js_elem_of_keys.
  - intros (token & Hin & Haction). eexists. split; [| by apply list_elem_of_In].
    apply in_map_iff. exists token. split; [done |].
    apply list_elem_of_In, elem_of_remove_dups, elem_of_app.
    destruct Hin as [Hin|Hin]; [left | right]; by apply Js_elem_of_keys.
Qed.

Lemma legacy_gt_zero (balance : Legacy.number) :
  Legacy.gt balance (Some 0) = true <-> exists v, balance = Some v /\ 0 < v.
Proof.
  destruct balance as [v|]; simpl.
  - rewrite Js_gt_true. split; [eauto | by intros (? & [= <-] & ?)].
  - split; [done | by intros (? & ? & ?)].
Qed.

Lemma legacy_fetch_fails response :
  fetchFails response = true ->
  Legacy.fetchCurrentTokenBalances parseFloat walletAddress response = ∅.
Proof.
  intros Hfail. unfold Legacy.fetchCurrentTokenBalances.
  destruct response as [value|e]; simpl in *; [| done].
  by destruct (legacy_addAccounts_throws parseFloat value Hfail ∅) as [e ->].
Qed.

Lemma legacy_gt_irrefl : Legacy.gt (Some 0) (Some 0) = false.
Proof. reflexivity. Qed.

(** The swaps of a round that finds the wallet empty. *)
Lemma legacy_swaps_on_empty (previousBalances : gmap string Legacy.number) call :
  (forall token v, previousBalances !! token = Some (Some v) -> 0 <= v) ->
  Legacy.Swap call ∈ Legacy.compareBalances TRADE_AMOUNT_LAMPORTS false walletAddress
                       previousBalances ∅
  <-> exists token v,
        previousBalances !! token = Some (Some v) /\ 0 < v
        /\ call = executeSwapSell token solMint 100.
Proof.
  intros Hsane. rewrite legacy_compareBalances_elem. split.
  - intros (token & _ & Hin). unfold Legacy.tokenActions, Legacy.getOr0 in Hin.
    rewrite lookup_empty in Hin. cbn [default negb] in Hin.
    rewrite legacy_gt_irrefl, andb_false_r in Hin.
    destruct (previousBalances !! token) as [[v|]|] eqn:Hold;
      cbv [default from_option id Legacy.gt Legacy.isZero] in Hin;
      change (Js.eq 0 0) with true in Hin; cbn [andb] in Hin;
      [| by apply not_elem_of_nil in Hin | by apply not_elem_of_nil in Hin].
    destruct (Js.gt 0 v) eqn:Hup.
    { apply Js_gt_true in Hup. specialize (Hsane _ _ Hold). lra. }
    destruct (Js.gt v 0) eqn:Hheld; [| by apply not_elem_of_nil in Hin].
    apply Js_gt_true in Hheld. exists token, v.
    apply elem_of_cons in Hin as [[= ->]|Hin]; [done |].
    apply elem_of_cons in Hin as [?|Hin]; [done |]. by apply not_elem_of_nil in Hin.
  - intros (token & v & Hold & Hpos & ->). exists token. split; [by left; eauto |].
    unfold Legacy.tokenActions, Legacy.getOr0. rewrite lookup_empty, Hold. simpl.
    rewrite andb_false_r.
    rewrite (proj2 (Js_gt_false 0 v)) by lra.
    rewrite (proj2 (Js_gt_true v 0)) by done. apply list_elem_of_here.
Qed.

(** The swaps of a round that follows one that found the wallet empty. *)
Lemma legacy_swaps_from_empty (latestBalances : gmap string Legacy.number) call :
  Legacy.Swap call ∈ Legacy.compareBalances TRADE_AMOUNT_LAMPORTS false walletAddress
                       ∅ latestBalances
  <-> exists token v,
        latestBalances !! token = Some (Some v) /\ 0 < v
        /\ call = executeSwapBuy solMint token TRADE_AMOUNT_LAMPORTS.
Proof.
  rewrite legacy_compareBalances_elem. split.
  - intros (token & _ & Hin). unfold Legacy.tokenActions, Legacy.getOr0 in Hin.
    rewrite lookup_empty in Hin.
    destruct (latestBalances !! token) as [[v|]|] eqn:Hlatest;
      cbv [default from_option id Legacy.gt Legacy.isZero] in Hin;
      change (Js.eq 0 0) with true in Hin; change (Js.gt 0 0) with false in Hin;
      rewrite ?andb_false_r in Hin; cbn [negb andb] in Hin;
      [| by apply not_elem_of_nil in Hin | by apply not_elem_of_nil in Hin].
    destruct (Js.gt v 0) eqn:Hnew; [| by apply not_elem_of_nil in Hin].
    apply Js_gt_true in Hnew. exists token, v.
    apply elem_of_cons in Hin as [[= ->]|Hin]; [done |].
    apply elem_of_cons in Hin as [?|Hin]; [done |].
    apply elem_of_cons in Hin as [?|Hin]; [done |]. by apply not_elem_of_nil in Hin.
  - intros (token & v & Hlatest & Hpos & ->). exists token. split; [by right; eauto |].
    unfold Legacy.tokenActions, Legacy.getOr0. rewrite lookup_empty, Hlatest. simpl.
    rewrite (proj2 (Js_gt_true v 0)) by done. apply list_elem_of_here.
Qed.

End LegacyFacts.

(** X14: one failed poll makes the polling tracker leave every position and
    take it again.  Past the first round, a round whose fetch fails dispatches
    a 100% sell of every token that the wallet held at the round before; the
    round after it dispatches a buy at the full trade amount of every token
    that the wallet holds. *)
Theorem legacy_failed_poll_sells_and_rebuys parseFloat TRADE_AMOUNT_LAMPORTS
    walletAddress failed response st :
  fetchFails failed = true ->
  Legacy.poll_isFirstRun st = false ->
  (forall token v, Legacy.poll_previousBalances st !! token = Some (Some v) -> 0 <= v) ->
  let round1 := Legacy.tick parseFloat TRADE_AMOUNT_LAMPORTS walletAddress failed st in
  let round2 :=
    Legacy.tick parseFloat TRADE_AMOUNT_LAMPORTS walletAddress response round1.2 in
  (forall call,
     Legacy.Swap call ∈ round1.1
     <-> exists token v,
           Legacy.poll_previousBalances st !! token = Some (Some v) /\ 0 < v
           /\ call = executeSwapSell token solMint 100)
  /\ (forall call,
     Legacy.Swap call ∈ round2.1
     <-> exists token v,
           Legacy.fetchCurrentTokenBalances parseFloat walletAddress response
             !! token = Some (Some v) /\ 0 < v
           /\ call = executeSwapBuy solMint token TRADE_AMOUNT_LAMPORTS).
Proof.
  intros Hfail Hfirst Hsane. unfold Legacy.tick. simpl.
  rewrite Hfirst, (legacy_fetch_fails parseFloat walletAddress failed Hfail).
  split; intros call.
  - by apply legacy_swaps_on_empty.
  - apply legacy_swaps_from_empty.
Qed.

Lemma legacy_failed_poll_sells_and_rebuys_witness :
  let st := {| Legacy.poll_previousBalances := {[ TKN := Some 30 ]};
               Legacy.poll_isFirstRun := false |} in
  let round1 := Legacy.tick Js.parseDecimal 1000000 "WALLET" (Rejected "timeout") st in
  let round2 :=
    Legacy.tick Js.parseDecimal 1000000 "WALLET" (Resolved [Parsed TKN "30"])
      round1.2 in
  Legacy.Swap (executeSwapSell TKN solMint 100) ∈ round1.1
  /\ Legacy.Swap (executeSwapBuy solMint TKN 1000000) ∈ round2.1.
Proof.
  intros st round1 round2.
  destruct (legacy_failed_poll_sells_and_rebuys Js.parseDecimal 1000000 "WALLET"
              (Rejected "timeout") (Resolved [Parsed TKN "30"]) st)
    as [Hsell Hbuy].
  - reflexivity.
  - reflexivity.
  - intros token v Hv. unfold st in Hv. cbn [Legacy.poll_previousBalances] in Hv.
    apply lookup_singleton_Some in Hv as [_ [= <-]]. lra.
  - split.
    + apply Hsell. exists TKN, 30. split; [vm_compute; reflexivity |].
      split; [lra | reflexivity].
    + apply Hbuy. exists TKN, 30. split; [vm_compute; reflexivity |].
      split; [lra | reflexivity].
Defined.

Section WaitFacts.

Variable parseFloat : string -> option Q.
Variable walletAddress : string.
Variable token : string.
Variable poll : nat -> RpcResponse.

(** The [i]-th fetch shows a positive balance of the token. *)
Local Abbreviation settledAt i :=
  (Legacy.gt
     (Legacy.getOr0
        (Legacy.fetchCurrentTokenBalances parseFloat walletAddress (poll i)) token)
     (Some 0)).

Lemma waitFrom_spec remaining : forall i,
  let outcome := Legacy.waitFrom parseFloat walletAddress token poll i remaining in
  (i <= outcome.2 <= i + remaining)%nat
  /\ (forall j, (i <= j)%nat -> (S j < outcome.2)%nat -> settledAt j = false)
  /\ (if outcome.1
      then (i < outcome.2)%nat /\ settledAt (pred outcome.2) = true
      else outcome.2 = (i + remaining)%nat
           /\ forall j, (i <= j < i + remaining)%nat -> settledAt j = false).
Proof.
  induction remaining as [|remaining IH]; intros i; simpl.
  - split; [lia |]. split; [intros; lia |]. split; [lia | intros; lia].
  - destruct (settledAt i) eqn:Hi; simpl.
    + split; [lia |]. split; [intros; lia |]. split; [lia | done].
    + specialize (IH (S i)). simpl in IH.
      destruct (Legacy.waitFrom _ _ _ _ (S i) remaining) as [settled fetches].
      simpl in *. destruct IH as (Hrange & Hbefore & Hend).
      split; [lia |]. split.
      * intros j Hj Hlt. destruct (decide (j = i)) as [->|Hne]; [done |].
        apply Hbefore; lia.
      * destruct settled.
        -- split; [lia | apply Hend].
        -- destruct Hend as [-> Hnone]. split; [lia |].
           intros j Hj. destruct (decide (j = i)) as [->|Hne]; [done |].
           apply Hnone. lia.
Qed.

End WaitFacts.

(** X15: the wait after a buy stops at the first fetch that shows the token.
    [waitForBalanceUpdate] answers [true] exactly when one of its [retries]
    fetches shows a positive balance of the token; it then has made no fetch
    beyond that one, and none before it showed the token.  Otherwise it
    answers [false] after [retries] fetches. *)
Theorem wait_stops_at_first_positive_balance parseFloat walletAddress token poll
    retries :
  let settledAt i :=
    Legacy.gt
      (Legacy.getOr0
         (Legacy.fetchCurrentTokenBalances parseFloat walletAddress (poll i)) token)
      (Some 0) in
  let outcome :=
    Legacy.runWaitForBalanceUpdate parseFloat walletAddress token poll retries in
  (outcome.2 <= retries)%nat
  /\ (outcome.1 = true <-> exists i, (i < retries)%nat /\ settledAt i = true)
  /\ (outcome.1 = true ->
      settledAt (pred outcome.2) = true
      /\ forall j, (S j < outcome.2)%nat -> settledAt j = false)
  /\ (outcome.1 = false -> outcome.2 = retries).
Proof.
  simpl. unfold Legacy.runWaitForBalanceUpdate.
  pose proof (waitFrom_spec parseFloat walletAddress token poll retries 0) as Hspec.
  simpl in Hspec.
  destruct (Legacy.waitFrom _ _ _ _ 0 retries) as [settled fetches].
  simpl in *. destruct Hspec as (Hrange & Hbefore & Hend).
  split; [lia |]. destruct settled.
  - destruct Hend as [Hpos Hhit]. split; [| split; [| done]].
    + split; [| done]. intros _. exists (pred fetches). split; [lia | done].
    + intros _. split; [done |]. intros j Hj. apply Hbefore; lia.
  - destruct Hend as [-> Hnone]. split; [| split; [done | done]].
    split; [done |]. intros (i & Hi & Hhit). rewrite Hnone in Hhit by lia. done.
Qed.

Lemma wait_stops_at_first_positive_balance_witness :
  let poll i := if (i =? 1)%nat then Resolved [Parsed TKN "7"] else Resolved [] in
  Legacy.runWaitForBalanceUpdate Js.parseDecimal "WALLET" TKN poll 5 = (true, 2%nat)
  /\ ((Legacy.runWaitForBalanceUpdate Js.parseDecimal "WALLET" TKN poll 5).1 = true
      <-> exists i, (i < 5)%nat
            /\ Legacy.gt
                 (Legacy.getOr0
                    (Legacy.fetchCurrentTokenBalances Js.parseDecimal "WALLET"
                       (poll i)) TKN)
                 (Some 0) = true).
Proof.
  intros poll. split; [vm_compute; reflexivity |].
  apply (wait_stops_at_first_positive_balance Js.parseDecimal "WALLET" TKN poll 5).
Defined.

(** ** Several accounts of one mint *)

Section SnapshotFacts.

Variable parseFloat : string -> option Q.

Lemma addAccounts_app accounts accounts' m :
  addAccounts parseFloat m (accounts ++ accounts')
  = match addAccounts parseFloat m accounts with
    | Normal m' => addAccounts parseFloat m' accounts'
    | Throw e => Throw e
    end.
Proof.
  revert m. induction accounts as [|account rest IH]; intros m; simpl; [done |].
  destruct (addAccount parseFloat m account); [apply IH | done].
Qed.

(** The accounts that the loop passes over for [mint]: those of another mint,
    and those whose balance is not a positive number. *)
Lemma addAccounts_passes_over mint accounts : forall m m',
  (forall ui balance, Parsed mint ui ∈ accounts -> parseFloat ui = Some balance ->
     balance <= 0) ->
  addAccounts parseFloat m accounts = Normal m' ->
  m' !! mint = m !! mint.
Proof.
  induction accounts as [|account rest IH]; intros m m' Hnone Hrun; simpl in Hrun.
  - by injection Hrun as <-.
  - assert (Hrest : forall ui balance, Parsed mint ui ∈ rest ->
              parseFloat ui = Some balance -> balance <= 0).
    { intros ui balance Hin. apply Hnone. by apply list_elem_of_further. }
    destruct account as [mint0 ui|]; simpl in Hrun; [| discriminate].
    destruct (parseFloat ui) as [balance|] eqn:Hparse; [| by eapply IH].
    destruct (Js.gt balance 0) eqn:Hpos; [| by eapply IH].
    rewrite (IH _ _ Hrest Hrun).
    destruct (decide (mint0 = mint)) as [->|Hne]; [| by rewrite lookup_insert_ne].
    apply Js_gt_true in Hpos.
    specialize (Hnone ui balance (list_elem_of_here _ _) Hparse). lra.
Qed.

End SnapshotFacts.

(** X16: the balances of several accounts of one mint are not added up.  In a
    snapshot that was fetched without failure, the entry of a mint is the
    balance of its last account whose balance is a positive number. *)
Theorem snapshot_keeps_the_last_positive_account parseFloat walletAddress
    before after mint ui balance s :
  fetchFails (Resolved (before ++ Parsed mint ui :: after)) = false ->
  parseFloat ui = Some balance -> 0 < balance ->
  (forall ui' balance', Parsed mint ui' ∈ after -> parseFloat ui' = Some balance' ->
     balance' <= 0) ->
  (getWalletTokenBalances parseFloat walletAddress
     (Resolved (before ++ Parsed mint ui :: after)) s).2 !! mint = Some balance.
Proof.
  intros Hok Hparse Hpos Hlast. unfold getWalletTokenBalances, tryFetch.
  simpl in Hok. rewrite existsb_app in Hok. apply orb_false_iff in Hok as [Hb Ha].
  simpl in Ha.
  rewrite addAccounts_app.
  destruct (addAccounts_normal parseFloat before Hb ∅) as [m1 ->].
  simpl. rewrite Hparse, (proj2 (Js_gt_true balance 0)) by done.
  destruct (addAccounts_normal parseFloat after Ha (<[mint := balance]> m1))
    as [m2 Hrun].
  rewrite Hrun. simpl.
  rewrite (addAccounts_passes_over parseFloat mint after _ _ Hlast Hrun).
  apply lookup_insert_eq.
Qed.

Lemma snapshot_keeps_the_last_positive_account_witness :
  (getWalletTokenBalances Js.parseDecimal "WALLET"
     (Resolved ([Parsed TKN "12.5"] ++ Parsed TKN "3" :: [Parsed TKN "0"]))
     initialState).2 !! TKN = Some 3.
Proof.
  apply (snapshot_keeps_the_last_positive_account Js.parseDecimal "WALLET"
           [Parsed TKN "12.5"] [Parsed TKN "0"] TKN "3" 3 initialState).
  - reflexivity.
  - vm_compute; reflexivity.
  - reflexivity.
  - intros ui' balance' Hin Hparse.
    apply elem_of_cons in Hin as [[= ->]|Hin]; [| by apply not_elem_of_nil in Hin].
    vm_compute in Hparse. injection Hparse as <-. discriminate.
Defined.
